(** * Retry policy, retry executors and retry scope of contest_trade

    A shallow embedding of [contest_trade/utils/retry_utils.py] and of the
    class hierarchy of [contest_trade/utils/exceptions.py].

    Modelling choices, fixed once for the whole development:

    - Numbers.  [max_retries] and attempt indices are Python integers: [Z].
      Durations and multipliers are floats; they are modelled as exact
      rationals ([Q]) with the range of a double: a power that leaves the
      range raises [OverflowError], as [float ** int] does.  Rounding is
      not modelled.
    - Failures.  A failure is an instance of a class below [Exception]; the
      classes are the ones of [exceptions.py] and the builtins that the
      module and the library calls it makes can raise.  An instance carries
      its class, an identity, so that "the same exception object" can be
      stated, and the text [str] gives for it.  Signals that derive from
      [BaseException] only are not failures and do not occur here.
    - Effects.  The wrapped operation and the retry callback are state
      transformers on states of their own; the operation has a
      [__name__] or has none.  The pseudo-random generator is a stream of
      draws with a cursor.  Everything observable (an invocation of the
      operation and what it produced, a call of the callback, a wait, a
      log record) is appended to a trace.
    - Library calls.  [time.sleep] refuses a negative duration and one
      beyond its clock; [await asyncio.sleep] takes any.  A record logged
      with the keyword [exc_info=True] is formatted by loguru with
      [str.format]; whether that raises is decided by the logger of the
      environment.  The two executors differ in the kind of wait only,
      and are two instances of one loop. *)

From Stdlib Require Import String.
From Stdlib Require Import ZArith QArith Qabs Qminmax Qpower Lqa List Bool Lia.
Import ListNotations.

Set Implicit Arguments.

(* ================================================================= *)
(** ** The exception taxonomy ([exceptions.py]) *)

Module Taxonomy.

(** The classes: the builtins, and the twenty-one classes of the module. *)
Inductive kind : Set :=
| Exception
| ArithmeticError
| OverflowError
| ZeroDivisionError
| LookupError
| KeyError
| IndexError
| AttributeError
| ValueError
| OSError
| ConnectionError
| ContestTradeException
| ConfigurationError
| ValidationError
| DataSourceError
| DataFetchError
| DataParseError
| APIError
| APITimeoutError
| APIRateLimitError
| LLMError
| LLMResponseError
| LLMParseError
| AgentError
| AgentTimeoutError
| ToolError
| ToolNotFoundError
| MarketError
| InvalidMarketError
| InvalidSymbolError
| SignalParseError
| FactorParseError.

(** The base written in each [class] statement. *)
Definition parent (k : kind) : option kind :=
  match k with
  | Exception => None
  | ArithmeticError => Some Exception
  | OverflowError => Some ArithmeticError
  | ZeroDivisionError => Some ArithmeticError
  | LookupError => Some Exception
  | KeyError => Some LookupError
  | IndexError => Some LookupError
  | AttributeError => Some Exception
  | ValueError => Some Exception
  | OSError => Some Exception
  | ConnectionError => Some OSError
  | ContestTradeException => Some Exception
  | ConfigurationError => Some ContestTradeException
  | ValidationError => Some ContestTradeException
  | DataSourceError => Some ContestTradeException
  | DataFetchError => Some DataSourceError
  | DataParseError => Some DataSourceError
  | APIError => Some ContestTradeException
  | APITimeoutError => Some APIError
  | APIRateLimitError => Some APIError
  | LLMError => Some ContestTradeException
  | LLMResponseError => Some LLMError
  | LLMParseError => Some LLMError
  | AgentError => Some ContestTradeException
  | AgentTimeoutError => Some AgentError
  | ToolError => Some ContestTradeException
  | ToolNotFoundError => Some ToolError
  | MarketError => Some ContestTradeException
  | InvalidMarketError => Some MarketError
  | InvalidSymbolError => Some MarketError
  | SignalParseError => Some ContestTradeException
  | FactorParseError => Some ContestTradeException
  end.

Definition kind_eq_dec (a b : kind) : {a = b} + {a <> b}.
Proof. decide equality. Defined.

Definition kind_eqb (a b : kind) : bool :=
  if kind_eq_dec a b then true else false.

(** Walk up the bases, at most [fuel] steps. *)
Fixpoint climbs (fuel : nat) (c d : kind) : bool :=
  kind_eqb c d ||
  match fuel with
  | O => false
  | S fuel' =>
      match parent c with
      | Some p => climbs fuel' p d
      | None => false
      end
  end.

(** No class is more than three bases away from [Exception]. *)
Definition depth_bound : nat := 3.

(** [issubclass(c, d)] for two classes. *)
Definition issubclass (c d : kind) : bool := climbs depth_bound c d.

(** [issubclass(c, classes)] for a tuple of classes, the test of an
    [except classes] clause. *)
Definition issubclass_any (c : kind) (classes : list kind) : bool :=
  existsb (issubclass c) classes.

(** An exception object; [exn_text] is what [str] gives for it. *)
Record exn : Set := mkExn { exn_kind : kind; exn_id : nat; exn_text : string }.

Definition isinstance (e : exn) (classes : list kind) : bool :=
  issubclass_any (exn_kind e) classes.

(** The hierarchy as a relation, read off the [class] statements:
    [c] is [d] or below it. *)
Inductive subclass : kind -> kind -> Prop :=
| subclass_refl : forall c, subclass c c
| subclass_base : forall c p d, parent c = Some p -> subclass p d -> subclass c d.

(** [c] is strictly below [d]. *)
Definition descendant (c d : kind) : Prop :=
  exists p, parent c = Some p /\ subclass p d.

End Taxonomy.
Import Taxonomy.

(* ================================================================= *)
(** ** What the interpreter and the library raise *)

(** [float ** int] with a result beyond the doubles. *)
Definition overflow_error : exn :=
  mkExn OverflowError 0 "(34, 'Numerical result out of range')".

(** [float ** int] with an exponent beyond the doubles. *)
Definition int_too_large : exn :=
  mkExn OverflowError 0 "int too large to convert to float".

(** [0.0 ** int] with a negative exponent. *)
Definition zero_division_error : exn :=
  mkExn ZeroDivisionError 0 "0.0 cannot be raised to a negative power".

(** [func.__name__] for a callable that has no such attribute. *)
Definition attribute_error : exn :=
  mkExn AttributeError 0 "object has no attribute '__name__'".

(** [time.sleep] with a negative duration, with one beyond its clock. *)
Definition negative_sleep : exn :=
  mkExn ValueError 0 "sleep length must be non-negative".

Definition sleep_too_long : exn :=
  mkExn OverflowError 0 "timestamp too large to convert to C _PyTime_t".

(** The largest double, [2^1024 - 2^971]. *)
Definition double_max : Q := inject_Z (2 ^ 1024 - 2 ^ 971).

Definition Qltb (x y : Q) : bool := negb (Qle_bool y x).

(** [b ** k] for a float [b] and an integer [k]: the exponent is made a
    float, zero has no negative power, and a result beyond the doubles is
    an error. *)
Definition float_pow (b : Q) (k : Z) : Q + exn :=
  if Qltb double_max (Qabs (inject_Z k)) then inr int_too_large
  else if Qeq_bool b 0 && (k <? 0)%Z then inr zero_division_error
  else if Qltb double_max (Qabs (b ^ k)) then inr overflow_error
  else inl (b ^ k).

(** The longest duration [time.sleep] takes: [2^63 - 1] nanoseconds. *)
Definition sleep_max : Q := inject_Z (2 ^ 63 - 1) / inject_Z (10 ^ 9).

(* ================================================================= *)
(** ** The pseudo-random generator *)

Record rng : Type := mkRng { draws : nat -> Q; cursor : nat }.

(** [random.random()]: the next draw. *)
Definition random (g : rng) : Q * rng :=
  (draws g (cursor g), {| draws := draws g; cursor := S (cursor g) |}).

(** [random.uniform(a, b)], which is [a + (b - a) * random()]. *)
Definition uniform (a b : Q) (g : rng) : Q * rng :=
  let (r, g') := random g in (a + (b - a) * r, g').

(** The draws of a generator are in the interval [0, 1), as those of
    [random.random()] are. *)
Definition unit_draws (g : rng) : Prop :=
  forall i, 0 <= draws g i /\ draws g i < 1.

(* ================================================================= *)
(** ** The retry policy ([RetryConfig]) *)

Record RetryConfig : Type := mkRetryConfig {
  max_retries : Z;
  initial_delay : Q;
  max_delay : Q;
  exponential_base : Q;
  jitter : bool;
  jitter_range : Q * Q
}.

(** [RetryConfig()], the defaults of [__init__]. *)
Definition default_config : RetryConfig :=
  {| max_retries := 3;
     initial_delay := 1;
     max_delay := 60;
     exponential_base := 2;
     jitter := true;
     jitter_range := (1 # 2, 3 # 2) |}.

(** Python's [min(a, b)]: [b] when [b < a], else [a]. *)
Definition py_min (a b : Q) : Q :=
  match b ?= a with
  | Lt => b
  | _ => a
  end.

(** The first statement of [calculate_delay]: the clamped envelope, when
    the power can be taken. *)
Definition backoff (c : RetryConfig) (attempt : Z) : Q + exn :=
  match float_pow (exponential_base c) attempt with
  | inl power => inl (py_min (initial_delay c * power) (max_delay c))
  | inr err => inr err
  end.

Definition calculate_delay (c : RetryConfig) (attempt : Z) (g : rng)
  : (Q + exn) * rng :=
  match backoff c attempt with
  | inl delay =>
      if jitter c then
        let (jitter_min, jitter_max) := jitter_range c in
        let (jitter_factor, g') := uniform jitter_min jitter_max g in
        (inl (delay * jitter_factor), g')
      else
        (inl delay, g)
  | inr err => (inr err, g)
  end.

(** The constraints the specification puts on a policy. *)
Definition valid_policy (c : RetryConfig) : Prop :=
  (0 <= max_retries c)%Z /\
  0 < initial_delay c /\
  initial_delay c <= max_delay c /\
  1 < exponential_base c /\
  0 < fst (jitter_range c) /\
  fst (jitter_range c) <= snd (jitter_range c).

(* ================================================================= *)
(** ** Observable effects *)

Inductive level : Set := WARNING | ERROR.

(** The log records of the module, with the values they format. *)
Inductive message : Type :=
| Failed_after_retries (name : string) (retries : Z) (e : exn)
| Failed_retrying (name : string) (attempt_number retries : Z) (delay : Q)
    (e : exn)
| Callback_error (callback_error : exn)
| Non_retryable (name : string) (e : exn)
| Context_failed_after_retries (retries : Z) (e : exn)
| Context_failed_retrying (attempt_number retries : Z) (delay : Q) (e : exn).

(** [time.sleep] blocks the thread, [await asyncio.sleep] suspends the task. *)
Inductive wait : Set := Blocking | Suspending.

Inductive event : Type :=
| Invoked (attempt : Z) (failure : option exn)
| Called_back (e : exn) (attempt : Z)
| Slept (how : wait) (delay : Q)
| Logged (l : level) (m : message).

(** What the module shares with the rest of the process.  [logger m] is
    what loguru does with the record [m] when it is logged with the
    keyword [exc_info=True]: it calls [str.format] on the text of the
    record with that keyword, which raises when the text has a field the
    keyword does not fill ([Some err]); it returns otherwise, and when no
    sink takes the record ([None]). *)
Record env : Type := mkEnv {
  gen : rng;
  trace : list event;
  logger : message -> option exn
}.

Definition emit (ev : event) (en : env) : env :=
  {| gen := gen en; trace := trace en ++ [ev]; logger := logger en |}.

Definition set_gen (g : rng) (en : env) : env :=
  {| gen := g; trace := trace en; logger := logger en |}.

(** [time.sleep(delay)] takes the duration, or raises. *)
Definition time_sleep_error (delay : Q) : option exn :=
  if Qltb sleep_max (Qabs delay) then Some sleep_too_long
  else if Qltb delay 0 then Some negative_sleep
  else None.

(** What a wait of either kind raises, if anything. *)
Definition sleep_error (how : wait) (delay : Q) : option exn :=
  match how with
  | Blocking => time_sleep_error delay
  | Suspending => None
  end.

(** [range(n)]. *)
Definition range (n : Z) : list Z := map Z.of_nat (seq 0 (Z.to_nat n)).

(** Projections of a trace. *)
Definition invocations (t : list event) : list (Z * option exn) :=
  flat_map (fun ev => match ev with Invoked k r => [(k, r)] | _ => [] end) t.

Definition callbacks (t : list event) : list (exn * Z) :=
  flat_map (fun ev => match ev with Called_back e k => [(e, k)] | _ => [] end) t.

Definition waits (t : list event) : list Q :=
  flat_map (fun ev => match ev with Slept _ d => [d] | _ => [] end) t.

Definition is_callback_error (ev : event) : bool :=
  match ev with
  | Logged ERROR (Callback_error _) => true
  | _ => false
  end.

(** A trace without the records of callback errors. *)
Definition without_callback_errors (t : list event) : list event :=
  filter (fun ev => negb (is_callback_error ev)) t.

(* ================================================================= *)
(** ** The executors ([sync_retry], [async_retry]) *)

Section Executor.

(** The result type of the operation, its state, the callback's state. *)
Variables V S C : Type.

(** The wrapped function: one call gives a result or a failure, and the
    next state; [__name__] is the attribute of that name, if the callable
    has one (a [functools.partial] has none). *)
Record operation : Type := mkOperation {
  call : S -> (V + exn) * S;
  __name__ : option string
}.

(** [on_retry(e, attempt)]: returns ([None]) or raises. *)
Definition retry_callback : Type := exn -> Z -> C -> option exn * C.

Record world : Type := mkWorld { op_state : S; cb_state : C; sys : env }.

Definition on_sys (f : env -> env) (w : world) : world :=
  {| op_state := op_state w; cb_state := cb_state w; sys := f (sys w) |}.

(** Computations that may raise. *)
Definition M (A : Type) : Type := world -> (A + exn) * world.

Definition ret {A} (a : A) : M A := fun w => (inl a, w).

Definition raise {A} (e : exn) : M A := fun w => (inr e, w).

Definition bind {A B} (m : M A) (k : A -> M B) : M B :=
  fun w =>
    match m w with
    | (inl a, w') => k a w'
    | (inr e, w') => (inr e, w')
    end.

(** [try: m  except ... as e: h e]; what [h] raises propagates. *)
Definition try_except {A} (m : M A) (h : exn -> M A) : M A :=
  fun w =>
    match m w with
    | (inl a, w') => (inl a, w')
    | (inr e, w') => h e w'
    end.

(** [logger.warning(text)], [logger.error(text)]: no keyword, so the
    text is taken as it is. *)
Definition log (l : level) (m : message) : M unit :=
  fun w => (inl tt, on_sys (emit (Logged l m)) w).

(** [logger.error(text, exc_info=True)]. *)
Definition log_exc_info (l : level) (m : message) : M unit :=
  fun w =>
    match logger (sys w) m with
    | Some err => (inr err, w)
    | None => (inl tt, on_sys (emit (Logged l m)) w)
    end.

(** [time.sleep(delay)] or [await asyncio.sleep(delay)]. *)
Definition sleep (how : wait) (delay : Q) : M unit :=
  fun w =>
    match sleep_error how delay with
    | Some err => (inr err, w)
    | None => (inl tt, on_sys (emit (Slept how delay)) w)
    end.

Definition delay_for (c : RetryConfig) (attempt : Z) : M Q :=
  fun w =>
    let (delay, g) := calculate_delay c attempt (gen (sys w)) in
    (delay, on_sys (set_gen g) w).

(** [func.__name__] in the text of a record. *)
Definition name_of (func : operation) : M string :=
  fun w =>
    match __name__ func with
    | Some name => (inl name, w)
    | None => (inr attribute_error, w)
    end.

Definition failure_of (r : V + exn) : option exn :=
  match r with
  | inl _ => None
  | inr e => Some e
  end.

Definition invoke (func : operation) (attempt : Z) : M V :=
  fun w =>
    let (r, s) := call func (op_state w) in
    (r, {| op_state := s; cb_state := cb_state w;
           sys := emit (Invoked attempt (failure_of r)) (sys w) |}).

Definition call_back (cb : retry_callback) (e : exn) (attempt : Z) : M unit :=
  fun w =>
    let (r, c) := cb e attempt (cb_state w) in
    let w' := {| op_state := op_state w; cb_state := c;
                 sys := emit (Called_back e attempt) (sys w) |} in
    match r with
    | None => (inl tt, w')
    | Some callback_error => (inr callback_error, w')
    end.

Notation "x <- m ;; k" := (bind m (fun x => k))
  (at level 61, m at next level, right associativity).
Notation "m ;; k" := (bind m (fun _ => k))
  (at level 61, right associativity).

(** How one iteration of the loop ends when it raises nothing. *)
Inductive flow : Type :=
| Return (v : V)
| Next (last_exception : exn).

Variable how : wait.
Variable config : RetryConfig.
Variable exceptions : list kind.
Variable on_retry : option retry_callback.
Variable func : operation.

(** [if on_retry: try: on_retry(e, attempt) except Exception ...]. *)
Definition guarded_callback (e : exn) (attempt : Z) : M unit :=
  match on_retry with
  | None => ret tt
  | Some cb =>
      try_except (call_back cb e attempt)
        (fun callback_error =>
           if isinstance callback_error [Exception]
           then log ERROR (Callback_error callback_error)
           else raise callback_error)
  end.

(** The body of [except exceptions as e]. *)
Definition retryable_handler (attempt : Z) (e : exn) : M flow :=
  if (attempt =? max_retries config)%Z then
    name <- name_of func ;;
    log_exc_info ERROR (Failed_after_retries name (max_retries config) e) ;;
    raise e
  else
    delay <- delay_for config attempt ;;
    name <- name_of func ;;
    log WARNING
      (Failed_retrying name (attempt + 1) (max_retries config) delay e) ;;
    guarded_callback e attempt ;;
    sleep how delay ;;
    ret (Next e).

(** The body of [except Exception as e]. *)
Definition other_handler (e : exn) : M flow :=
  name <- name_of func ;;
  log_exc_info ERROR (Non_retryable name e) ;;
  raise e.

(** The [try] statement of the loop. *)
Definition attempt_once (attempt : Z) : M flow :=
  try_except (v <- invoke func attempt ;; ret (Return v))
    (fun e =>
       if isinstance e exceptions then retryable_handler attempt e
       else if isinstance e [Exception] then other_handler e
       else raise e).

(** The [for] loop and the statements after it.  [inl (Some v)]: the
    wrapper returned [v]; [inl None]: it fell off its end; [inr e]: it
    raised [e]. *)
Fixpoint retry_loop (attempts : list Z) (last_exception : option exn)
  : M (option V) :=
  match attempts with
  | [] =>
      match last_exception with
      | Some e => raise e
      | None => ret None
      end
  | attempt :: rest =>
      f <- attempt_once attempt ;;
      match f with
      | Return v => ret (Some v)
      | Next e => retry_loop rest (Some e)
      end
  end.

Definition wrapper : M (option V) :=
  retry_loop (range (max_retries config + 1)) None.

End Executor.

Arguments Return {V} v.
Arguments Next {V} last_exception.
Arguments mkWorld {S C} op_state cb_state sys.
Arguments op_state {S C} w.
Arguments cb_state {S C} w.
Arguments sys {S C} w.
Arguments mkOperation {V S} call __name__.
Arguments call {V S} o s.
Arguments __name__ {V S} o.

(** [config = RetryConfig()] when no policy is given. *)
Definition config_or_default (config : option RetryConfig) : RetryConfig :=
  match config with
  | Some c => c
  | None => default_config
  end.

Definition sync_retry {V S C} (config : option RetryConfig)
  (exceptions : list kind) (on_retry : option (retry_callback C))
  (func : operation V S) : M S C (option V) :=
  wrapper Blocking (config_or_default config) exceptions on_retry func.

Definition async_retry {V S C} (config : option RetryConfig)
  (exceptions : list kind) (on_retry : option (retry_callback C))
  (func : operation V S) : M S C (option V) :=
  wrapper Suspending (config_or_default config) exceptions on_retry func.

(* ================================================================= *)
(** ** The retry scope ([RetryContext]) *)

Module RetryContext.

Record t : Type := mk {
  config : RetryConfig;
  exceptions : list kind;
  attempt : Z;
  last_exception : option exn
}.

Definition __init__ (config : option RetryConfig) (exceptions : list kind) : t :=
  {| config := config_or_default config;
     exceptions := exceptions;
     attempt := 0;
     last_exception := None |}.

Definition __enter__ (self : t) : t := self.

Definition set_last_exception (e : exn) (self : t) : t :=
  {| config := config self;
     exceptions := exceptions self;
     attempt := attempt self;
     last_exception := Some e |}.

Definition set_attempt (a : Z) (self : t) : t :=
  {| config := config self;
     exceptions := exceptions self;
     attempt := a;
     last_exception := last_exception self |}.

(** [__exit__(exc_type, exc_val, exc_tb)], where [exc] is [None] when the
    block ended without a failure and [exc_type] is the class of
    [exc_val] otherwise.  [inl b] is the value returned, [true]
    suppressing the failure; [inr err] is a failure raised by the method
    itself. *)
Definition __exit__ (self : t) (exc : option exn) (en : env)
  : (bool + exn) * t * env :=
  match exc with
  | None => (inl true, self, en)
  | Some exc_val =>
      if negb (issubclass_any (exn_kind exc_val) (exceptions self)) then
        (inl false, self, en)
      else
        let self := set_last_exception exc_val self in
        if (attempt self >=? max_retries (config self))%Z then
          let record :=
            Context_failed_after_retries (max_retries (config self)) exc_val in
          match logger en record with
          | Some err => (inr err, self, en)
          | None => (inl false, self, emit (Logged ERROR record) en)
          end
        else
          match calculate_delay (config self) (attempt self) (gen en) with
          | (inr err, g) => (inr err, self, set_gen g en)
          | (inl delay, g) =>
              let en := emit (Logged WARNING
                                (Context_failed_retrying
                                   (attempt self + 1)
                                   (max_retries (config self))
                                   delay exc_val)) (set_gen g en) in
              match time_sleep_error delay with
              | Some err => (inr err, self, en)
              | None =>
                  let en := emit (Slept Blocking delay) en in
                  (inl true, set_attempt (attempt self + 1) self, en)
              end
          end
  end.

End RetryContext.

(* ================================================================= *)
(** ** Vocabulary of the statements *)

Section Vocabulary.

Variables V S C : Type.

(** The state of the operation after [j] invocations from [s]. *)
Fixpoint state_after (func : operation V S) (j : nat) (s : S) : S :=
  match j with
  | O => s
  | Datatypes.S j' => state_after func j' (snd (call func s))
  end.

(** What invocation number [j] (from 0) produces, starting in [s]. *)
Definition outcome_at (func : operation V S) (j : nat) (s : S) : V + exn :=
  fst (call func (state_after func j s)).

(** The callback with the same effect on its state that never raises. *)
Definition quiet (cb : retry_callback C) : retry_callback C :=
  fun e attempt c => (None, snd (cb e attempt c)).



(** Two worlds that differ in records of callback errors only. *)
Definition same_but_callback_errors (w1 w2 : world S C) : Prop :=
  op_state w1 = op_state w2 /\
  cb_state w1 = cb_state w2 /\
  gen (sys w1) = gen (sys w2) /\
  without_callback_errors (trace (sys w1)) =
  without_callback_errors (trace (sys w2)).

(** Worlds that differ in records of callback errors only and have the
    same logger. *)
Definition alike (w1 w2 : world S C) : Prop :=
  same_but_callback_errors w1 w2 /\ logger (sys w1) = logger (sys w2).

(** The logger takes the records of the failures of the operation: the
    text of none of them has a field that the keyword [exc_info] does not
    fill. *)
Definition takes_failures (func : operation V S) (c : RetryConfig)
  (w : world S C) : Prop :=
  forall j e name,
    outcome_at func j (op_state w) = inr e ->
    __name__ func = Some name ->
    logger (sys w) (Failed_after_retries name (max_retries c) e) = None /\
    logger (sys w) (Non_retryable name e) = None.

(** The operation has a [__name__]. *)
Definition named (func : operation V S) : Prop :=
  exists name, __name__ func = Some name.

End Vocabulary.

(** [sync_retry] or [async_retry], by the kind of wait. *)
Definition executor {V S C} (how : wait)
  : option RetryConfig -> list kind -> option (retry_callback C) ->
    operation V S -> M S C (option V) :=
  match how with
  | Blocking => sync_retry
  | Suspending => async_retry
  end.

(** The state of the callback after a retried attempt. *)
Definition called_back (C : Type) (on_retry : option (retry_callback C))
  (e : exn) (a : Z) (c : C) : C :=
  match on_retry with
  | Some cb => snd (cb e a c)
  | None => c
  end.

(** What a retried attempt [a] leaves in the trace after the invocation,
    records of callback errors aside: the warning, the call of the
    callback when there is one, the wait. *)
Definition retry_events (C : Type) (how : wait) (c : RetryConfig)
  (name : string) (on_retry : option (retry_callback C)) (a : Z) (delay : Q)
  (e : exn) : list event :=
  [Logged WARNING (Failed_retrying name (a + 1) (max_retries c) delay e)]
  ++ match on_retry with
     | Some _ => [Called_back e a]
     | None => []
     end
  ++ [Slept how delay].

(** The logger raises on no record. *)
Definition quiet_logger (en : env) : Prop := forall m, logger en m = None.

(** Under policy [c] the delay of each attempt [0 .. upto - 1] can be
    computed: no power leaves the doubles. *)
Definition delays_are_computed (c : RetryConfig) (upto : Z) : Prop :=
  forall k, (0 <= k < upto)%Z -> exists d, backoff c k = inl d.

(** Under policy [c] and with the draws of [g0], the delay of each attempt
    [0 .. upto - 1] can be computed and is a duration that the wait of
    kind [how] takes. *)
Definition delays_are_slept (how : wait) (c : RetryConfig) (g0 : rng)
  (upto : Z) : Prop :=
  forall k g, (0 <= k < upto)%Z -> draws g = draws g0 ->
    exists d, fst (calculate_delay c k g) = inl d /\ sleep_error how d = None.

(** A generator that always draws [r]. *)
Definition constant_rng (r : Q) : rng := {| draws := fun _ => r; cursor := 0 |}.

(** An environment whose logger never raises, as when no sink is
    installed. *)
Definition empty_env (g : rng) : env :=
  {| gen := g; trace := []; logger := fun _ => None |}.

(** Test doubles: an operation that counts its invocations, raises [e] on
    the first [failures] of them and returns its count afterwards; the
    same as a callable without a [__name__]; and a callback that counts
    its calls and raises [ce] on each. *)
Definition flaky (failures : nat) (e : exn) : operation nat nat :=
  {| call := fun calls =>
       if (calls <? failures)%nat then (inr e, Datatypes.S calls)
       else (inl calls, Datatypes.S calls);
     __name__ := Some "flaky"%string |}.


Definition raising_callback (ce : exn) : retry_callback nat :=
  fun _ _ calls => (Some ce, Datatypes.S calls).

Definition start (g : rng) : world nat nat :=
  mkWorld 0%nat 0%nat (empty_env g).

Definition connection_error : exn := mkExn ConnectionError 7 "Network error".
Definition value_error : exn := mkExn ValueError 9 "bad value".

(** A failure whose text has a replacement field, and what [str.format]
    raises for such a text when only [exc_info] is given. *)
Definition braces_error : exn := mkExn ValueError 11 "{x}".
Definition key_error : exn := mkExn KeyError 0 "'x'".

Definition failure_in (m : message) : exn :=
  match m with
  | Failed_after_retries _ _ e => e
  | Failed_retrying _ _ _ _ e => e
  | Callback_error e => e
  | Non_retryable _ e => e
  | Context_failed_after_retries _ e => e
  | Context_failed_retrying _ _ _ e => e
  end.

(** The logger with a sink installed, on the records of the failure
    [braces_error]: their text ends in [{x}], a field that [exc_info]
    does not fill. *)
Definition sink_logger (m : message) : option exn :=
  if String.eqb (exn_text (failure_in m)) "{x}" then Some key_error else None.

Definition start_with_sink (g : rng) : world nat nat :=
  mkWorld 0%nat 0%nat {| gen := g; trace := []; logger := sink_logger |}.

(** Scenario A of the specification, and Scenario D. *)
Definition scenario_A : RetryConfig :=
  {| max_retries := 3; initial_delay := 1; max_delay := 60;
     exponential_base := 2; jitter := false; jitter_range := (1 # 2, 3 # 2) |}.

Definition scenario_D : RetryConfig :=
  {| max_retries := 2; initial_delay := 10; max_delay := 15;
     exponential_base := 5; jitter := false; jitter_range := (1 # 2, 3 # 2) |}.


(** A policy with no retry. *)
Definition no_retry : RetryConfig :=
  {| max_retries := 0; initial_delay := 1; max_delay := 60;
     exponential_base := 2; jitter := false; jitter_range := (1 # 2, 3 # 2) |}.

(* ================================================================= *)
(** ** The rest of the two modules *)

(** [__all__] of [exceptions.py]. *)
Definition __all__ : list kind :=
  [ContestTradeException; ConfigurationError; ValidationError;
   DataSourceError; DataFetchError; DataParseError;
   APIError; APITimeoutError; APIRateLimitError;
   LLMError; LLMResponseError; LLMParseError;
   AgentError; AgentTimeoutError;
   ToolError; ToolNotFoundError;
   MarketError; InvalidMarketError; InvalidSymbolError;
   SignalParseError; FactorParseError].

Definition is_log (ev : event) : bool :=
  match ev with
  | Logged _ _ => true
  | _ => false
  end.

(** A trace without its log records. *)
Definition without_logs (t : list event) : list event :=
  filter (fun ev => negb (is_log ev)) t.

(** The invocations and the waits of a trace, in their order. *)
Definition is_step (ev : event) : bool :=
  match ev with
  | Invoked _ _ => true
  | Slept _ _ => true
  | _ => false
  end.

Definition steps (t : list event) : list event := filter is_step t.

(** Invocations and waits in turn from attempt [a]: an invocation, then
    for each further attempt a wait of kind [how] and the invocation of
    the next attempt; every invocation but the last failed. *)
Inductive in_turn (how : wait) : Z -> list event -> Prop :=
| in_turn_last : forall a r, in_turn how a [Invoked a r]
| in_turn_wait : forall a e d rest,
    in_turn how (a + 1) rest ->
    in_turn how a (Invoked a (Some e) :: Slept how d :: rest).

(** The warnings of the executors and the waits of a trace, in their
    order. *)
Definition is_notice (ev : event) : bool :=
  match ev with
  | Logged WARNING (Failed_retrying _ _ _ _ _) => true
  | Slept _ _ => true
  | _ => false
  end.

Definition notices (t : list event) : list event := filter is_notice t.

(** Each warning is followed by the wait it announces, of the announced
    length; the last warning may stand alone when the wait refuses that
    length. *)
Inductive announced (how : wait) : list event -> Prop :=
| announced_none : announced how []
| announced_refused : forall name k r d e,
    sleep_error how d <> None ->
    announced how [Logged WARNING (Failed_retrying name k r d e)]
| announced_slept : forall name k r d e rest,
    announced how rest ->
    announced how
      (Logged WARNING (Failed_retrying name k r d e) :: Slept how d :: rest).

(** The longest wait a policy asks for: [max_delay], times the upper end
    of [jitter_range] when there is jitter. *)
Definition wait_ceiling (c : RetryConfig) : Q :=
  if jitter c then max_delay c * snd (jitter_range c) else max_delay c.

Definition total (l : list Q) : Q := fold_right Qplus 0 l.

(** [__exit__] called with each failure of a sequence in turn, as a scope
    that is entered again and again sees them; the results are the
    values returned, or the failures the method raised itself. *)
Fixpoint exit_each (self : RetryContext.t) (failures : list exn) (en : env)
  : list (bool + exn) * RetryContext.t * env :=
  match failures with
  | [] => ([], self, en)
  | e :: rest =>
      let '(result, self, en) := RetryContext.__exit__ self (Some e) en in
      let '(others, self, en) := exit_each self rest en in
      (result :: others, self, en)
  end.

(** The number of suppressed failures among the results. *)
Definition count_true (l : list (bool + exn)) : nat :=
  length (filter (fun r => match r with inl true => true | _ => false end) l).

(** *** The usage example of [retry_utils.py]: [process_with_retry] *)

Section Usage.

Variables V S : Type.

(** How the function ends: by [return result], by a failure that leaves
    the [with] statement, or by the [raise retry_ctx.last_exception]
    after the loop, which raises [TypeError] when there is none. *)
Inductive ending : Type :=
| Returned (result : V)
| Propagated (e : exn)
| Fell_through (last_exception : option exn).

Variable perform_operation : operation V S.

(** The [while] loop and the [raise] after it, for a given scope; [None]
    when [fuel] iterations were not enough.  A failure that [__exit__]
    raises itself leaves the [with] statement in place of the failure of
    the block. *)
Fixpoint scope_loop (fuel : nat) (retry_ctx : RetryContext.t)
  (w : world S unit) : option (ending * RetryContext.t * world S unit) :=
  match fuel with
  | O => None
  | Datatypes.S fuel' =>
      if (RetryContext.attempt retry_ctx
          <=? max_retries (RetryContext.config retry_ctx))%Z
      then
        let retry_ctx := RetryContext.__enter__ retry_ctx in
        match invoke perform_operation (RetryContext.attempt retry_ctx) w with
        | (inl result, w) =>
            let '(_, retry_ctx, en) :=
              RetryContext.__exit__ retry_ctx None (sys w) in
            Some (Returned result, retry_ctx, on_sys (fun _ => en) w)
        | (inr e, w) =>
            let '(suppressed, retry_ctx, en) :=
              RetryContext.__exit__ retry_ctx (Some e) (sys w) in
            match suppressed with
            | inl true => scope_loop fuel' retry_ctx (on_sys (fun _ => en) w)
            | inl false =>
                Some (Propagated e, retry_ctx, on_sys (fun _ => en) w)
            | inr err =>
                Some (Propagated err, retry_ctx, on_sys (fun _ => en) w)
            end
        end
      else
        Some (Fell_through (RetryContext.last_exception retry_ctx),
              retry_ctx, w)
  end.

(** Iterations that are always enough: one per attempt left, and the
    last test of the loop condition. *)
Definition loop_fuel (retry_ctx : RetryContext.t) : nat :=
  Datatypes.S
    (Z.to_nat (max_retries (RetryContext.config retry_ctx)
               - RetryContext.attempt retry_ctx + 1)).

(** The loop of the example around a new scope. *)
Definition retry_in_scope (config : option RetryConfig)
  (exceptions : list kind) (w : world S unit)
  : option (ending * RetryContext.t * world S unit) :=
  let retry_ctx := RetryContext.__init__ config exceptions in
  scope_loop (loop_fuel retry_ctx) retry_ctx w.

(** The example itself: [RetryConfig(max_retries=3)] and [(IOError,)],
    [IOError] being [OSError]. *)
Definition process_with_retry : world S unit ->
  option (ending * RetryContext.t * world S unit) :=
  retry_in_scope
    (Some (mkRetryConfig 3 (initial_delay default_config)
             (max_delay default_config) (exponential_base default_config)
             (jitter default_config) (jitter_range default_config)))
    [OSError].

End Usage.

Arguments Returned {V} result.
Arguments Propagated {V} e.
Arguments Fell_through {V} last_exception.

(* ================================================================= *)
(** ** The taxonomy: [issubclass] decides the hierarchy *)

Lemma kind_eqb_refl (c : kind) : kind_eqb c c = true.
Proof. unfold kind_eqb. destruct (kind_eq_dec c c); congruence. Qed.

Lemma kind_eqb_eq (c d : kind) : kind_eqb c d = true <-> c = d.
Proof. unfold kind_eqb. destruct (kind_eq_dec c d); split; congruence. Qed.

Lemma climbs_subclass (fuel : nat) :
  forall c d, climbs fuel c d = true -> subclass c d.
Proof.
  induction fuel as [|fuel IH]; intros c d H; simpl in H;
    apply orb_true_iff in H; destruct H as [H|H].
  - apply kind_eqb_eq in H. subst. constructor.
  - discriminate.
  - apply kind_eqb_eq in H. subst. constructor.
  - destruct (parent c) as [p|] eqn:Hp; [|discriminate].
    eapply subclass_base; eauto.
Qed.

(** The fuel of [issubclass] is enough: one more base never escapes it. *)
Lemma issubclass_base (c p d : kind) :
  parent c = Some p -> issubclass p d = true -> issubclass c d = true.
Proof.
  intros Hp H.
  destruct c; simpl in Hp; inversion Hp; subst p; clear Hp;
    destruct d; vm_compute in H; try discriminate H; reflexivity.
Qed.

Lemma issubclass_refl (c : kind) : issubclass c c = true.
Proof.
  unfold issubclass, depth_bound. simpl. now rewrite kind_eqb_refl.
Qed.

Lemma issubclass_iff (c d : kind) : issubclass c d = true <-> subclass c d.
Proof.
  split.
  - apply climbs_subclass.
  - induction 1 as [c|c p d Hp _ IH].
    + apply issubclass_refl.
    + eapply issubclass_base; eauto.
Qed.

Lemma subclass_cases (c d : kind) : subclass c d <-> c = d \/ descendant c d.
Proof.
  split.
  - intros H. destruct H as [c|c p d Hp H]; [now left|right].
    exists p. auto.
  - intros [->|[p [Hp H]]]; [constructor|]. eapply subclass_base; eauto.
Qed.

Lemma isinstance_iff (e : exn) (classes : list kind) :
  isinstance e classes = true <->
  exists c, In c classes /\ (exn_kind e = c \/ descendant (exn_kind e) c).
Proof.
  unfold isinstance, issubclass_any. rewrite existsb_exists.
  split; intros [c [Hin H]]; exists c; split; auto.
  - now apply subclass_cases, issubclass_iff.
  - now apply issubclass_iff, subclass_cases.
Qed.

(** Every failure of the model is an [Exception]: an [except Exception]
    clause catches it. *)
Lemma isinstance_Exception (e : exn) : isinstance e [Exception] = true.
Proof. destruct e as [k i t]. destruct k; reflexivity. Qed.

Lemma subclass_trans (a b c : kind) :
  subclass a b -> subclass b c -> subclass a c.
Proof.
  induction 1 as [a|a p b Hp _ IH]; intros Hbc; [assumption|].
  eapply subclass_base; eauto.
Qed.

Lemma issubclass_trans (a b c : kind) :
  issubclass a b = true -> issubclass b c = true -> issubclass a c = true.
Proof.
  rewrite !issubclass_iff. apply subclass_trans.
Qed.

Lemma issubclass_antisym (a b : kind) :
  issubclass a b = true -> issubclass b a = true -> a = b.
Proof.
  destruct a, b; intros H1 H2; try reflexivity;
    vm_compute in H1, H2; discriminate.
Qed.

(* ================================================================= *)
(** ** The policy *)

Lemma Qltb_lt (x y : Q) : Qltb x y = true <-> x < y.
Proof.
  unfold Qltb. rewrite negb_true_iff. split.
  - intros H. apply Qnot_le_lt. intros Hle.
    apply Qle_bool_iff in Hle. congruence.
  - intros H. destruct (Qle_bool y x) eqn:E; [|reflexivity].
    apply Qle_bool_iff in E. exfalso. eapply Qlt_not_le; eassumption.
Qed.

Lemma Qltb_ge (x y : Q) : Qltb x y = false <-> y <= x.
Proof.
  unfold Qltb. rewrite negb_false_iff. apply Qle_bool_iff.
Qed.

Lemma Qltb_abs_pos (m x : Q) : 0 <= x -> Qltb m (Qabs x) = Qltb m x.
Proof.
  intros Hx. destruct (Qltb m x) eqn:E.
  - apply Qltb_lt in E. apply Qltb_lt. now rewrite Qabs_pos.
  - apply Qltb_ge in E. apply Qltb_ge. now rewrite Qabs_pos.
Qed.

Lemma py_min_Qmin (a b : Q) : py_min a b = Qmin a b.
Proof.
  unfold py_min, Qmin, GenericMinMax.gmin.
  rewrite <- (Qcompare_antisym a b).
  destruct (a ?= b); reflexivity.
Qed.

Lemma py_min_pos (a b : Q) : 0 < a -> 0 < b -> 0 < py_min a b.
Proof. intros Ha Hb. unfold py_min. destruct (b ?= a); assumption. Qed.

Lemma py_min_le_r (a b : Q) : py_min a b <= b.
Proof.
  unfold py_min. destruct (b ?= a) eqn:E.
  - apply Qeq_alt in E. rewrite E. apply Qle_refl.
  - apply Qle_refl.
  - apply Qgt_alt in E. now apply Qlt_le_weak.
Qed.

Lemma py_min_le_compat (a a' m : Q) : a <= a' -> py_min a m <= py_min a' m.
Proof. rewrite !py_min_Qmin. apply Q.min_le_compat_r. Qed.

(** A power that is taken is the power. *)
Lemma float_pow_value (b : Q) (k : Z) (p : Q) :
  float_pow b k = inl p ->
  p = b ^ k /\ Qabs (inject_Z k) <= double_max /\ Qabs (b ^ k) <= double_max.
Proof.
  unfold float_pow.
  destruct (Qltb double_max (Qabs (inject_Z k))) eqn:Hk; [discriminate|].
  destruct (Qeq_bool b 0 && (k <? 0)%Z); [discriminate|].
  destruct (Qltb double_max (Qabs (b ^ k))) eqn:Hp; [discriminate|].
  intros H. inversion H. apply Qltb_ge in Hk, Hp. auto.
Qed.


Lemma backoff_value (c : RetryConfig) (k : Z) (d : Q) :
  backoff c k = inl d ->
  d = py_min (initial_delay c * exponential_base c ^ k) (max_delay c).
Proof.
  unfold backoff.
  destruct (float_pow (exponential_base c) k) as [p|err] eqn:Hp; [|discriminate].
  intros H. inversion H. apply float_pow_value in Hp. now destruct Hp as [-> _].
Qed.

Lemma backoff_pos (c : RetryConfig) (k : Z) (d : Q) :
  valid_policy c -> backoff c k = inl d -> 0 < d.
Proof.
  intros (_ & Hd & Hm & Hb & _) H. apply backoff_value in H. subst d.
  apply py_min_pos.
  - apply Qmult_lt_0_compat; [assumption|].
    apply Qpower_0_lt. eapply Qlt_trans; [|exact Hb]. reflexivity.
  - eapply Qlt_le_trans; eauto.
Qed.

(** The envelope never exceeds [max_delay]. *)
Lemma backoff_le_max_delay (c : RetryConfig) (k : Z) (d : Q) :
  backoff c k = inl d -> d <= max_delay c.
Proof. intros H. apply backoff_value in H. subst d. apply py_min_le_r. Qed.

Lemma envelope_le (c : RetryConfig) (k k' : Z) :
  0 <= initial_delay c -> 1 <= exponential_base c -> (k <= k')%Z ->
  initial_delay c * exponential_base c ^ k <=
  initial_delay c * exponential_base c ^ k'.
Proof.
  intros Hd Hb Hk.
  rewrite !(Qmult_comm (initial_delay c)).
  apply Qmult_le_compat_r; [|assumption].
  now apply Qpower_le_compat_l.
Qed.

Lemma uniform_bounds (a b : Q) (g : rng) :
  unit_draws g -> a <= b ->
  a <= fst (uniform a b g) /\ fst (uniform a b g) <= b.
Proof.
  intros Hg Hab. unfold uniform, random. simpl.
  destruct (Hg (cursor g)) as [H0 H1].
  set (r := draws g (cursor g)) in *. split; nra.
Qed.

Lemma uniform_advances (a b : Q) (g : rng) :
  snd (uniform a b g) = {| draws := draws g; cursor := S (cursor g) |}.
Proof. reflexivity. Qed.

Lemma unit_draws_same (g g' : rng) :
  draws g' = draws g -> unit_draws g -> unit_draws g'.
Proof. unfold unit_draws. intros ->. auto. Qed.

(** What [calculate_delay] does to the generator: the draws stay, the
    cursor moves by one when a delay with jitter is computed, and not at
    all otherwise. *)
Lemma calculate_delay_generator (c : RetryConfig) (k : Z) (g : rng) :
  draws (snd (calculate_delay c k g)) = draws g /\
  cursor (snd (calculate_delay c k g)) =
  (cursor g +
   match fst (calculate_delay c k g) with
   | inl _ => if jitter c then 1 else 0
   | inr _ => 0
   end)%nat.
Proof.
  unfold calculate_delay. destruct (backoff c k) as [d|err].
  - destruct (jitter c).
    + destruct (jitter_range c) as [lo hi]. simpl. split; [reflexivity|lia].
    + simpl. split; [reflexivity|lia].
  - simpl. split; [reflexivity|lia].
Qed.

Lemma calculate_delay_computed (c : RetryConfig) (k : Z) (g : rng) (d : Q) :
  backoff c k = inl d -> exists d', fst (calculate_delay c k g) = inl d'.
Proof.
  intros H. unfold calculate_delay. rewrite H. destruct (jitter c).
  - destruct (jitter_range c) as [lo hi].
    destruct (uniform lo hi g) as [u g']. simpl. eauto.
  - simpl. eauto.
Qed.

Lemma calculate_delay_bounds (c : RetryConfig) (k : Z) (g : rng) (d : Q) :
  valid_policy c -> unit_draws g ->
  fst (calculate_delay c k g) = inl d ->
  0 < d /\ d <= wait_ceiling c /\
  (jitter c = true ->
   exists b, backoff c k = inl b /\
             b * fst (jitter_range c) <= d /\ d <= b * snd (jitter_range c)).
Proof.
  intros Hc Hg. unfold calculate_delay, wait_ceiling.
  destruct (backoff c k) as [b|err] eqn:Hb; [|discriminate].
  assert (Hpos : 0 < b) by (eapply backoff_pos; eassumption).
  assert (Hmax : b <= max_delay c) by (eapply backoff_le_max_delay; eassumption).
  destruct Hc as (_ & _ & _ & _ & Hlo & Hhi).
  destruct (jitter c).
  - destruct (jitter_range c) as [lo hi]. simpl in Hlo, Hhi.
    destruct (uniform_bounds Hg Hhi) as [Hu1 Hu2].
    destruct (uniform lo hi g) as [u g']. simpl in *.
    intros H. inversion H. subst d. clear H.
    set (m := max_delay c) in *.
    split; [nra|]. split; [nra|]. intros _. exists b. split; [reflexivity|].
    split; nra.
  - simpl. intros H. inversion H. subst d.
    split; [assumption|]. split; [assumption|]. discriminate.
Qed.

Lemma wait_ceiling_nonneg (c : RetryConfig) :
  valid_policy c -> 0 <= wait_ceiling c.
Proof.
  intros (_ & Hd & Hm & _ & Hlo & Hhi). unfold wait_ceiling.
  destruct (jitter c); [|lra].
  set (lo := fst (jitter_range c)) in *. set (hi := snd (jitter_range c)) in *.
  nra.
Qed.

(** A duration between zero and the clock's limit is taken by either
    wait. *)
Lemma sleep_error_none (how : wait) (d : Q) :
  0 <= d -> d <= sleep_max -> sleep_error how d = None.
Proof.
  intros H0 Hmax. destruct how; [|reflexivity].
  unfold sleep_error, time_sleep_error. rewrite (Qltb_abs_pos sleep_max H0).
  apply Qltb_ge in Hmax, H0. now rewrite Hmax, H0.
Qed.

(** Under a valid policy whose longest wait the clock takes, with draws
    in [0, 1) and powers within the doubles, every delay is computed and
    slept. *)
Lemma valid_delays_are_slept (how : wait) (c : RetryConfig) (g0 : rng)
  (upto : Z) :
  valid_policy c -> unit_draws g0 -> wait_ceiling c <= sleep_max ->
  delays_are_computed c upto ->
  delays_are_slept how c g0 upto.
Proof.
  intros Hc Hg Hmax Hcomp k g Hk Hd.
  destruct (Hcomp k Hk) as [b Hb].
  destruct (@calculate_delay_computed c k g b Hb) as [d Hdel].
  exists d. split; [assumption|].
  assert (Hg' : unit_draws g) by (eapply unit_draws_same; eassumption).
  destruct (@calculate_delay_bounds c k g d Hc Hg' Hdel) as (H0 & H1 & _).
  apply sleep_error_none; [now apply Qlt_le_weak|].
  eapply Qle_trans; eassumption.
Qed.

(* ================================================================= *)
(** ** The executors, one attempt at a time *)

Lemma range_spec (n k : Z) : In k (range n) <-> (0 <= k < n)%Z.
Proof.
  unfold range. rewrite in_map_iff. split.
  - intros [i [<- Hi]]. apply in_seq in Hi. lia.
  - intros Hk. exists (Z.to_nat k). split; [lia|]. apply in_seq. lia.
Qed.

Lemma range_seq (n : Z) : range n = map Z.of_nat (seq 0 (Z.to_nat n)).
Proof. reflexivity. Qed.

Lemma range_length (n : Z) : length (range n) = Z.to_nat n.
Proof. unfold range. now rewrite length_map, length_seq. Qed.

Lemma range_nonpositive (n : Z) : (n <= 0)%Z -> range n = [].
Proof.
  intros Hn. unfold range. now replace (Z.to_nat n) with O by lia.
Qed.

Lemma range_split (n : Z) (i : nat) :
  (Z.of_nat i <= n)%Z ->
  exists rest, range (n + 1) = map Z.of_nat (seq 0 i) ++ Z.of_nat i :: rest.
Proof.
  intros Hi. unfold range.
  replace (Z.to_nat (n + 1)) with (i + Datatypes.S (Z.to_nat n - i))%nat by lia.
  rewrite seq_app, map_app. simpl. eauto.
Qed.


Lemma last_cons_default (A : Type) (x : A) (l : list A) (d d' : A) :
  List.last (x :: l) d = List.last (x :: l) d'.
Proof.
  revert x. induction l as [|y l IH]; intros x; [reflexivity|].
  change (List.last (y :: l) d = List.last (y :: l) d'). apply IH.
Qed.

Lemma invocations_app (t u : list event) :
  invocations (t ++ u) = invocations t ++ invocations u.
Proof. apply flat_map_app. Qed.

Lemma callbacks_app (t u : list event) :
  callbacks (t ++ u) = callbacks t ++ callbacks u.
Proof. apply flat_map_app. Qed.

Lemma waits_app (t u : list event) : waits (t ++ u) = waits t ++ waits u.
Proof. apply flat_map_app. Qed.


Lemma steps_app (t u : list event) : steps (t ++ u) = steps t ++ steps u.
Proof. apply filter_app. Qed.

Lemma notices_app (t u : list event) :
  notices (t ++ u) = notices t ++ notices u.
Proof. apply filter_app. Qed.

Lemma without_logs_app (t u : list event) :
  without_logs (t ++ u) = without_logs t ++ without_logs u.
Proof. apply filter_app. Qed.

Lemma without_callback_errors_app (t u : list event) :
  without_callback_errors (t ++ u) =
  without_callback_errors t ++ without_callback_errors u.
Proof. apply filter_app. Qed.

Lemma invocations_without (t : list event) :
  invocations (without_callback_errors t) = invocations t.
Proof.
  induction t as [|ev t IH]; [reflexivity|].
  destruct ev as [k r|e k|h d|[|] []]; simpl; now rewrite ?IH.
Qed.

Lemma callbacks_without (t : list event) :
  callbacks (without_callback_errors t) = callbacks t.
Proof.
  induction t as [|ev t IH]; [reflexivity|].
  destruct ev as [k r|e k|h d|[|] []]; simpl; now rewrite ?IH.
Qed.

Lemma waits_without (t : list event) :
  waits (without_callback_errors t) = waits t.
Proof.
  induction t as [|ev t IH]; [reflexivity|].
  destruct ev as [k r|e k|h d|[|] []]; simpl; now rewrite ?IH.
Qed.

Lemma steps_without (t : list event) :
  steps (without_callback_errors t) = steps t.
Proof.
  induction t as [|ev t IH]; [reflexivity|].
  destruct ev as [k r|e k|h d|[|] []]; simpl; now rewrite ?IH.
Qed.

Lemma notices_without (t : list event) :
  notices (without_callback_errors t) = notices t.
Proof.
  induction t as [|ev t IH]; [reflexivity|].
  destruct ev as [k r|e k|h d|[|] []]; simpl; now rewrite ?IH.
Qed.

Lemma without_logs_without (t : list event) :
  without_logs (without_callback_errors t) = without_logs t.
Proof.
  induction t as [|ev t IH]; [reflexivity|].
  destruct ev as [k r|e k|h d|[|] []]; simpl; now rewrite ?IH.
Qed.

Lemma waits_steps (t : list event) : waits (steps t) = waits t.
Proof.
  induction t as [|ev t IH]; [reflexivity|].
  destruct ev; simpl; now rewrite ?IH.
Qed.

Lemma invocations_steps (t : list event) :
  invocations (steps t) = invocations t.
Proof.
  induction t as [|ev t IH]; [reflexivity|].
  destruct ev; simpl; now rewrite ?IH.
Qed.

Section Attempt.

Variables V S C : Type.
Variable how : wait.
Variable config : RetryConfig.
Variable exceptions : list kind.
Variable on_retry : option (retry_callback C).
Variable func : operation V S.

Local Abbreviation attempt_here :=
  (attempt_once how config exceptions on_retry func).

(** The guarded callback never raises; it calls the callback once when
    there is one, and neither invokes the operation nor waits. *)
Lemma guarded_callback_returns (e : exn) (a : Z) (w : world S C) :
  exists w' evs,
    guarded_callback on_retry e a w = (inl tt, w') /\
    op_state w' = op_state w /\
    cb_state w' = called_back on_retry e a (cb_state w) /\
    gen (sys w') = gen (sys w) /\
    logger (sys w') = logger (sys w) /\
    trace (sys w') = trace (sys w) ++ evs /\
    without_callback_errors evs =
    match on_retry with Some _ => [Called_back e a] | None => [] end.
Proof.
  unfold guarded_callback, called_back. destruct on_retry as [cb|].
  - unfold try_except, call_back.
    destruct (cb e a (cb_state w)) as [[ce|] c].
    + rewrite isinstance_Exception. unfold log, on_sys, emit. simpl.
      eexists. exists [Called_back e a; Logged ERROR (Callback_error ce)].
      repeat split. simpl. now rewrite <- app_assoc.
    + eexists. exists [Called_back e a]. repeat split.
  - exists w, []. unfold ret. repeat split. now rewrite app_nil_r.
Qed.

(** A success ends the iteration at once. *)
Lemma attempt_once_success (a : Z) (v : V) (s' : S) (w : world S C) :
  call func (op_state w) = (inl v, s') ->
  attempt_here a w =
  (inl (Return v),
   mkWorld s' (cb_state w) (emit (Invoked a None) (sys w))).
Proof.
  intros Hf. unfold attempt_once, try_except, bind, invoke.
  rewrite Hf. reflexivity.
Qed.

(** A failure outside the retryable classes is logged and raised again,
    when the operation has a name and the logger takes the record. *)
Lemma attempt_once_other (a : Z) (e : exn) (s' : S) (name : string)
  (w : world S C) :
  call func (op_state w) = (inr e, s') ->
  isinstance e exceptions = false ->
  __name__ func = Some name ->
  logger (sys w) (Non_retryable name e) = None ->
  attempt_here a w =
  (inr e,
   mkWorld s' (cb_state w)
     (emit (Logged ERROR (Non_retryable name e))
        (emit (Invoked a (Some e)) (sys w)))).
Proof.
  intros Hf Hi Hn Hl.
  unfold attempt_once, try_except, invoke. unfold bind at 1.
  rewrite Hf. cbv beta iota. rewrite Hi, isinstance_Exception.
  unfold other_handler, bind, name_of, log_exc_info. rewrite Hn.
  cbn [sys logger emit]. rewrite Hl. reflexivity.
Qed.

(** A retryable failure on the last attempt is logged and raised again,
    when the operation has a name and the logger takes the record. *)
Lemma attempt_once_exhausted (e : exn) (s' : S) (name : string)
  (w : world S C) :
  call func (op_state w) = (inr e, s') ->
  isinstance e exceptions = true ->
  __name__ func = Some name ->
  logger (sys w) (Failed_after_retries name (max_retries config) e) = None ->
  attempt_here (max_retries config) w =
  (inr e,
   mkWorld s' (cb_state w)
     (emit (Logged ERROR (Failed_after_retries name (max_retries config) e))
        (emit (Invoked (max_retries config) (Some e)) (sys w)))).
Proof.
  intros Hf Hi Hn Hl.
  unfold attempt_once, try_except, invoke. unfold bind at 1.
  rewrite Hf. cbv beta iota. rewrite Hi.
  unfold retryable_handler. rewrite Z.eqb_refl.
  unfold bind, name_of, log_exc_info. rewrite Hn.
  cbn [sys logger emit]. rewrite Hl. reflexivity.
Qed.

(** A retryable failure on an earlier attempt whose delay cannot be
    computed: the failure of the computation is raised, before any
    record, call or wait. *)
Lemma attempt_once_no_delay (a : Z) (e err : exn) (s' : S) (g : rng)
  (w : world S C) :
  call func (op_state w) = (inr e, s') ->
  isinstance e exceptions = true ->
  a <> max_retries config ->
  calculate_delay config a (gen (sys w)) = (inr err, g) ->
  attempt_here a w =
  (inr err,
   mkWorld s' (cb_state w) (set_gen g (emit (Invoked a (Some e)) (sys w)))).
Proof.
  intros Hf Hi Ha Hd. apply Z.eqb_neq in Ha.
  unfold attempt_once, try_except, invoke. unfold bind at 1.
  rewrite Hf. cbv beta iota. rewrite Hi.
  unfold retryable_handler. rewrite Ha.
  unfold bind, delay_for. cbn [sys gen emit]. rewrite Hd. reflexivity.
Qed.

(** A retryable failure on an earlier attempt, with a delay that is
    computed and slept and an operation that has a name: the warning is
    logged, the callback is called, the executor waits once, and the loop
    goes on. *)
Lemma attempt_once_retried_trace (a : Z) (e : exn) (s' : S) (d : Q)
  (g : rng) (name : string) (w : world S C) :
  call func (op_state w) = (inr e, s') ->
  isinstance e exceptions = true ->
  a <> max_retries config ->
  calculate_delay config a (gen (sys w)) = (inl d, g) ->
  __name__ func = Some name ->
  sleep_error how d = None ->
  exists w' evs,
    attempt_here a w = (inl (Next e), w') /\
    op_state w' = s' /\
    cb_state w' = called_back on_retry e a (cb_state w) /\
    gen (sys w') = g /\
    logger (sys w') = logger (sys w) /\
    trace (sys w') = trace (sys w) ++ Invoked a (Some e) :: evs /\
    without_callback_errors evs = retry_events how config name on_retry a d e.
Proof.
  intros Hf Hi Ha Hd Hn Hs. apply Z.eqb_neq in Ha.
  unfold attempt_once, try_except, invoke. unfold bind at 1.
  rewrite Hf. cbv beta iota. rewrite Hi.
  unfold retryable_handler. rewrite Ha.
  unfold bind, delay_for, name_of, log, sleep, ret.
  cbn [sys gen emit on_sys op_state failure_of]. rewrite Hd, Hn.
  match goal with
  | |- context [guarded_callback on_retry e a ?w0] =>
      destruct (guarded_callback_returns e a w0)
        as (w1 & evs & Hg & Hs1 & Hc & Hgen & Hlog & Ht & Hevs)
  end.
  rewrite Hg, Hs. simpl in *.
  eexists.
  exists ([Logged WARNING
             (Failed_retrying name (a + 1) (max_retries config) d e)]
          ++ evs ++ [Slept how d]).
  split; [reflexivity|]. simpl.
  repeat split; auto.
  - rewrite Ht. rewrite <- !app_assoc. reflexivity.
  - rewrite without_callback_errors_app, Hevs. reflexivity.
Qed.

(** The same, with a delay that the wait refuses: the failure of the wait
    is raised after the warning and the call of the callback. *)
Lemma attempt_once_refused (a : Z) (e err : exn) (s' : S) (d : Q)
  (g : rng) (name : string) (w : world S C) :
  call func (op_state w) = (inr e, s') ->
  isinstance e exceptions = true ->
  a <> max_retries config ->
  calculate_delay config a (gen (sys w)) = (inl d, g) ->
  __name__ func = Some name ->
  sleep_error how d = Some err ->
  exists w' evs,
    attempt_here a w = (inr err, w') /\
    op_state w' = s' /\
    cb_state w' = called_back on_retry e a (cb_state w) /\
    gen (sys w') = g /\
    logger (sys w') = logger (sys w) /\
    trace (sys w') = trace (sys w) ++ Invoked a (Some e) :: evs /\
    without_callback_errors evs =
    removelast (retry_events how config name on_retry a d e).
Proof.
  intros Hf Hi Ha Hd Hn Hs. apply Z.eqb_neq in Ha.
  unfold attempt_once, try_except, invoke. unfold bind at 1.
  rewrite Hf. cbv beta iota. rewrite Hi.
  unfold retryable_handler. rewrite Ha.
  unfold bind, delay_for, name_of, log, sleep, ret.
  cbn [sys gen emit on_sys op_state failure_of]. rewrite Hd, Hn.
  match goal with
  | |- context [guarded_callback on_retry e a ?w0] =>
      destruct (guarded_callback_returns e a w0)
        as (w1 & evs & Hg & Hs1 & Hc & Hgen & Hlog & Ht & Hevs)
  end.
  rewrite Hg, Hs. simpl in *.
  exists w1.
  exists ([Logged WARNING
             (Failed_retrying name (a + 1) (max_retries config) d e)]
          ++ evs).
  split; [reflexivity|].
  repeat split; auto.
  - rewrite Ht. rewrite <- !app_assoc. reflexivity.
  - rewrite without_callback_errors_app, Hevs. unfold retry_events.
    destruct on_retry; reflexivity.
Qed.

(** A failure outside the retryable classes, when the operation has no
    name or the logger raises on the record: that failure is raised in
    place of the failure of the operation, and nothing is logged. *)
Lemma attempt_once_other_raises (a : Z) (e err : exn) (s' : S)
  (w : world S C) :
  call func (op_state w) = (inr e, s') ->
  isinstance e exceptions = false ->
  match __name__ func with
  | Some name => logger (sys w) (Non_retryable name e)
  | None => Some attribute_error
  end = Some err ->
  attempt_here a w =
  (inr err, mkWorld s' (cb_state w) (emit (Invoked a (Some e)) (sys w))).
Proof.
  intros Hf Hi Hl.
  unfold attempt_once, try_except, invoke. unfold bind at 1.
  rewrite Hf. cbv beta iota. rewrite Hi, isinstance_Exception.
  unfold other_handler, bind, name_of, log_exc_info.
  destruct (__name__ func) as [name|].
  - cbn [sys logger emit]. rewrite Hl. reflexivity.
  - inversion Hl. reflexivity.
Qed.

(** The same for a retryable failure on the last attempt. *)
Lemma attempt_once_exhausted_raises (e err : exn) (s' : S) (w : world S C) :
  call func (op_state w) = (inr e, s') ->
  isinstance e exceptions = true ->
  match __name__ func with
  | Some name =>
      logger (sys w) (Failed_after_retries name (max_retries config) e)
  | None => Some attribute_error
  end = Some err ->
  attempt_here (max_retries config) w =
  (inr err,
   mkWorld s' (cb_state w)
     (emit (Invoked (max_retries config) (Some e)) (sys w))).
Proof.
  intros Hf Hi Hl.
  unfold attempt_once, try_except, invoke. unfold bind at 1.
  rewrite Hf. cbv beta iota. rewrite Hi.
  unfold retryable_handler. rewrite Z.eqb_refl.
  unfold bind, name_of, log_exc_info.
  destruct (__name__ func) as [name|].
  - cbn [sys logger emit]. rewrite Hl. reflexivity.
  - inversion Hl. reflexivity.
Qed.

(** A retryable failure on an earlier attempt of an operation without a
    name: the delay is computed, then [AttributeError] is raised, before
    any record, call or wait. *)
Lemma attempt_once_nameless (a : Z) (e : exn) (s' : S) (d : Q) (g : rng)
  (w : world S C) :
  call func (op_state w) = (inr e, s') ->
  isinstance e exceptions = true ->
  a <> max_retries config ->
  calculate_delay config a (gen (sys w)) = (inl d, g) ->
  __name__ func = None ->
  attempt_here a w =
  (inr attribute_error,
   mkWorld s' (cb_state w) (set_gen g (emit (Invoked a (Some e)) (sys w)))).
Proof.
  intros Hf Hi Ha Hd Hn. apply Z.eqb_neq in Ha.
  unfold attempt_once, try_except, invoke. unfold bind at 1.
  rewrite Hf. cbv beta iota. rewrite Hi.
  unfold retryable_handler. rewrite Ha.
  unfold bind, delay_for, name_of. cbn [sys gen emit]. rewrite Hd, Hn.
  reflexivity.
Qed.

(** What one attempt does, whatever the operation, the callback, the
    policy and the logger do. *)
Lemma attempt_once_digest (a : Z) (w : world S C) :
  exists evs,
    trace (sys (snd (attempt_here a w))) =
    trace (sys w)
      ++ Invoked a (failure_of (fst (call func (op_state w)))) :: evs /\
    op_state (snd (attempt_here a w)) = snd (call func (op_state w)) /\
    logger (sys (snd (attempt_here a w))) = logger (sys w) /\
    draws (gen (sys (snd (attempt_here a w)))) = draws (gen (sys w)) /\
    invocations evs = [] /\
    match fst (attempt_here a w) with
    | inl (Return v) =>
        fst (call func (op_state w)) = inl v /\ evs = [] /\
        gen (sys (snd (attempt_here a w))) = gen (sys w)
    | inl (Next e) =>
        fst (call func (op_state w)) = inr e /\
        isinstance e exceptions = true /\
        a <> max_retries config /\
        exists d name,
          calculate_delay config a (gen (sys w)) =
          (inl d, gen (sys (snd (attempt_here a w)))) /\
          sleep_error how d = None /\
          __name__ func = Some name /\
          without_callback_errors evs =
          retry_events how config name on_retry a d e
    | inr err =>
        exists e,
          fst (call func (op_state w)) = inr e /\
          steps evs = [] /\
          (cursor (gen (sys w)) <= cursor (gen (sys (snd (attempt_here a w))))
           <= cursor (gen (sys w)) + if jitter config then 1 else 0)%nat /\
          (notices evs = [] \/
           exists name k r d e',
             notices evs = [Logged WARNING (Failed_retrying name k r d e')] /\
             sleep_error how d <> None) /\
          (named func ->
           (isinstance e exceptions = true -> a <> max_retries config ->
            exists d, backoff config a = inl d) ->
           callbacks evs =
           if isinstance e exceptions && negb (a =? max_retries config)%Z
           then match on_retry with Some _ => [(e, a)] | None => [] end
           else []) /\
          (named func -> quiet_logger (sys w) ->
           (isinstance e exceptions = true -> a <> max_retries config ->
            exists d, fst (calculate_delay config a (gen (sys w))) = inl d /\
                      sleep_error how d = None) ->
           err = e /\
           (isinstance e exceptions = false \/ a = max_retries config))
    end.
Proof.
  pose proof (calculate_delay_generator config a (gen (sys w)))
    as [Hdraws Hcursor].
  destruct (call func (op_state w)) as [[v|e] s'] eqn:Hf;
    cbn [fst snd failure_of].
  - erewrite attempt_once_success by eassumption.
    exists []. cbn. repeat split.
  - destruct (isinstance e exceptions) eqn:Hi.
    + destruct (Z.eq_dec a (max_retries config)) as [Ha|Ha].
      * subst a.
        destruct (match __name__ func with
                  | Some name =>
                      logger (sys w)
                        (Failed_after_retries name (max_retries config) e)
                  | None => Some attribute_error
                  end) as [err|] eqn:Hl.
        -- erewrite attempt_once_exhausted_raises by eassumption.
           exists []. cbn. do 5 (split; [reflexivity|]).
           exists e. do 2 (split; [reflexivity|]).
           split; [destruct (jitter config); lia|].
           split; [now left|].
           split; [intros _ _; now rewrite Z.eqb_refl, andb_false_r|].
           intros [name Hn] Hq _. rewrite Hn, Hq in Hl. discriminate.
        -- destruct (__name__ func) as [name|] eqn:Hn; [|discriminate].
           erewrite attempt_once_exhausted by eassumption.
           eexists. cbn. rewrite <- app_assoc.
           do 5 (split; [reflexivity|]).
           exists e. do 2 (split; [reflexivity|]).
           split; [destruct (jitter config); lia|].
           split; [now left|].
           split; [intros _ _; now rewrite Z.eqb_refl, andb_false_r|].
           intros _ _ _. split; [reflexivity|now right].
      * destruct (calculate_delay config a (gen (sys w))) as [[d|err] g]
          eqn:Hd; cbn [fst snd] in Hdraws, Hcursor.
        -- destruct (__name__ func) as [name|] eqn:Hn.
           ++ destruct (sleep_error how d) as [err|] eqn:Hs.
              ** destruct (@attempt_once_refused a e err s' d g name w
                             Hf Hi Ha Hd Hn Hs)
                   as (w' & evs & HR & Hs' & _ & Hg & Hlog & Ht & Hevs).
                 rewrite HR. cbn [fst snd]. exists evs.
                 rewrite Hg, Hs', Hlog.
                 do 4 (split; [assumption || reflexivity|]).
                 split.
                 { rewrite <- invocations_without, Hevs.
                   unfold retry_events. now destruct on_retry. }
                 exists e. split; [reflexivity|].
                 split.
                 { rewrite <- steps_without, Hevs.
                   unfold retry_events. now destruct on_retry. }
                 split; [destruct (jitter config); lia|].
                 split.
                 { right. exists name, (a + 1)%Z, (max_retries config), d, e.
                   split; [|congruence].
                   rewrite <- notices_without, Hevs.
                   unfold retry_events. now destruct on_retry. }
                 split.
                 { intros _ _. apply Z.eqb_neq in Ha. rewrite Hi, Ha. cbn.
                   rewrite <- callbacks_without, Hevs.
                   unfold retry_events. now destruct on_retry. }
                 intros _ _ Hcalm.
                 destruct (Hcalm Hi Ha) as (d' & Hd' & Hs'').
                 inversion Hd'. subst d'. congruence.
              ** destruct (@attempt_once_retried_trace a e s' d g name w
                             Hf Hi Ha Hd Hn Hs)
                   as (w' & evs & HR & Hs' & _ & Hg & Hlog & Ht & Hevs).
                 rewrite HR. cbn [fst snd]. exists evs.
                 rewrite Hg, Hs', Hlog.
                 do 4 (split; [assumption || reflexivity|]).
                 split.
                 { rewrite <- invocations_without, Hevs.
                   unfold retry_events. now destruct on_retry. }
                 do 3 (split; [assumption || reflexivity|]).
                 exists d, name. auto.
           ++ erewrite attempt_once_nameless by eassumption.
              exists []. cbn.
              do 5 (split; [assumption || reflexivity|]).
              exists e. do 2 (split; [reflexivity|]).
              split; [destruct (jitter config); lia|].
              split; [now left|].
              split; [intros [name Hn'] _; congruence|].
              intros [name Hn'] _ _. congruence.
        -- erewrite attempt_once_no_delay by eassumption.
           exists []. cbn.
           do 5 (split; [assumption || reflexivity|]).
           exists e. do 2 (split; [reflexivity|]).
           split; [destruct (jitter config); lia|].
           split; [now left|].
           split.
           ++ intros _ Hcomp. destruct (Hcomp Hi Ha) as [b Hb].
              destruct (@calculate_delay_computed config a (gen (sys w)) b Hb)
                as [d' Hd'].
              rewrite Hd in Hd'. discriminate.
           ++ intros _ _ Hcalm.
              destruct (Hcalm Hi Ha) as (d' & Hd' & _). discriminate.
    + destruct (match __name__ func with
                | Some name => logger (sys w) (Non_retryable name e)
                | None => Some attribute_error
                end) as [err|] eqn:Hl.
      * erewrite attempt_once_other_raises by eassumption.
        exists []. cbn. do 5 (split; [reflexivity|]).
        exists e. do 2 (split; [reflexivity|]).
        split; [destruct (jitter config); lia|].
        split; [now left|].
        split; [now rewrite Hi|].
        intros [name Hn] Hq _. rewrite Hn, Hq in Hl. discriminate.
      * destruct (__name__ func) as [name|] eqn:Hn; [|discriminate].
        erewrite attempt_once_other by eassumption.
        eexists. cbn. rewrite <- app_assoc.
        do 5 (split; [reflexivity|]).
        exists e. do 2 (split; [reflexivity|]).
        split; [destruct (jitter config); lia|].
        split; [now left|].
        split; [now rewrite Hi|].
        intros _ _ _. split; [reflexivity|now left].
Qed.

End Attempt.

(* ================================================================= *)
(** ** The loop of the executors *)

Lemma total_le (bound : Q) (l : list Q) :
  Forall (fun d => 0 < d /\ d <= bound) l ->
  0 <= total l /\ total l <= inject_Z (Z.of_nat (length l)) * bound.
Proof.
  induction 1 as [|d l [Hd1 Hd2] _ [IH1 IH2]].
  - simpl. split; [apply Qle_refl|]. rewrite Qmult_0_l. apply Qle_refl.
  - cbn [total fold_right length]. fold (total l).
    rewrite Nat2Z.inj_succ. unfold Z.succ. rewrite inject_Z_plus.
    change (inject_Z 1) with 1.
    set (n := inject_Z (Z.of_nat (length l))) in *.
    split; nra.
Qed.

Section Loop.

Variables V S C : Type.
Variable how : wait.
Variable config : RetryConfig.
Variable exceptions : list kind.
Variable on_retry : option (retry_callback C).
Variable func : operation V S.

Local Abbreviation attempt_here :=
  (attempt_once how config exceptions on_retry func).
Local Abbreviation loop_here :=
  (retry_loop how config exceptions on_retry func).

Lemma retry_loop_cons (a : Z) (rest : list Z) (last : option exn)
  (w : world S C) :
  loop_here (a :: rest) last w =
  match attempt_here a w with
  | (inl (Return v), w') => (inl (Some v), w')
  | (inl (Next e), w') => loop_here rest (Some e) w'
  | (inr e, w') => (inr e, w')
  end.
Proof.
  simpl. unfold bind. destruct (attempt_here a w) as [[[v|e]|e] w']; reflexivity.
Qed.

Lemma outcome_at_0 (s : S) : outcome_at func 0 s = fst (call func s).
Proof. reflexivity. Qed.

Lemma outcome_at_S (j : nat) (s : S) :
  outcome_at func (Datatypes.S j) s = outcome_at func j (snd (call func s)).
Proof. reflexivity. Qed.

(** What a retried attempt leaves in the projections of the trace. *)
Lemma retry_events_projections (evs : list event) (name : string) (a : Z)
  (d : Q) (e : exn) :
  without_callback_errors evs = retry_events how config name on_retry a d e ->
  steps evs = [Slept how d] /\
  waits evs = [d] /\
  invocations evs = [] /\
  notices evs =
  [Logged WARNING (Failed_retrying name (a + 1) (max_retries config) d e);
   Slept how d] /\
  callbacks evs = match on_retry with Some _ => [(e, a)] | None => [] end.
Proof.
  intros H.
  rewrite <- steps_without, <- waits_without, <- invocations_without,
    <- notices_without, <- callbacks_without, H.
  unfold retry_events. destruct on_retry; repeat split.
Qed.

(** Any run of the loop over the attempts [a .. max_retries]: the
    invocations and the waits come in turn, each warning is followed by
    its wait, the draws stay and the cursor moves by one per computed
    delay with jitter. *)
Lemma retry_loop_shape (len : nat) :
  forall (a : nat) (last : option exn) (w : world S C),
    (0 < len)%nat ->
    Z.of_nat (a + len) = (max_retries config + 1)%Z ->
    exists evs m,
      trace (sys (snd (loop_here (map Z.of_nat (seq a len)) last w))) =
      trace (sys w) ++ evs /\
      in_turn how (Z.of_nat a) (steps evs) /\
      (1 <= m <= len)%nat /\
      map fst (invocations evs) = map Z.of_nat (seq a m) /\
      length (waits evs) = (m - 1)%nat /\
      announced how (notices evs) /\
      draws (gen (sys (snd (loop_here (map Z.of_nat (seq a len)) last w)))) =
      draws (gen (sys w)) /\
      (cursor (gen (sys w))
       + (if jitter config then length (waits evs) else 0)
       <= cursor (gen (sys (snd (loop_here (map Z.of_nat (seq a len))
                                   last w))))
       <= cursor (gen (sys w))
          + (if jitter config then Datatypes.S (length (waits evs)) else 0))%nat /\
      fst (loop_here (map Z.of_nat (seq a len)) last w) <> inl None /\
      (valid_policy config -> unit_draws (gen (sys w)) ->
       Forall (fun d => 0 < d /\ d <= wait_ceiling config) (waits evs)).
Proof.
  induction len as [|len IH]; intros a last w Hlen Ha; [lia|].
  cbn [seq map]. rewrite retry_loop_cons.
  destruct (@attempt_once_digest V S C how config exceptions on_retry func
              (Z.of_nat a) w)
    as (evs0 & Ht0 & _ & _ & Hd0 & Hi0 & Hcase).
  destruct (attempt_here (Z.of_nat a) w) as [[[v|e]|err] w1];
    cbn [fst snd] in *.
  - destruct Hcase as (Hv & -> & Hg). rewrite Hv in Ht0. cbn in Ht0.
    exists [Invoked (Z.of_nat a) None], 1%nat.
    split; [assumption|]. split; [apply in_turn_last|].
    split; [lia|]. split; [reflexivity|]. split; [reflexivity|].
    split; [apply announced_none|]. split; [assumption|].
    split; [rewrite Hg; cbn; destruct (jitter config); lia|].
    split; [discriminate|]. intros _ _. constructor.
  - destruct Hcase as (He & Hi & Hne & d & name & Hd & Hs & Hn & Hevs).
    rewrite He in Ht0. cbn in Ht0.
    destruct (retry_events_projections evs0 Hevs)
      as (Hst0 & Hw0 & _ & Hn0 & _).
    pose proof (calculate_delay_generator config (Z.of_nat a) (gen (sys w)))
      as [_ Hcur]. rewrite Hd in Hcur. cbn [fst snd] in Hcur.
    destruct (IH (Datatypes.S a) (Some e) w1) as
      (evs' & m & Ht & Hturn & Hm & Hinv & Hwaits & Hann & Hdr & Hcu & Hres
       & Hb); [lia|lia|].
    exists (Invoked (Z.of_nat a) (Some e) :: evs0 ++ evs'), (Datatypes.S m).
    split.
    { rewrite Ht, Ht0, <- app_assoc. reflexivity. }
    split.
    { change (Invoked (Z.of_nat a) (Some e) :: evs0 ++ evs')
        with ([Invoked (Z.of_nat a) (Some e)] ++ evs0 ++ evs').
      rewrite !steps_app, Hst0. cbn.
      apply in_turn_wait.
      replace (Z.of_nat a + 1)%Z with (Z.of_nat (Datatypes.S a)) by lia.
      assumption. }
    split; [lia|].
    split.
    { change (Invoked (Z.of_nat a) (Some e) :: evs0 ++ evs')
        with ([Invoked (Z.of_nat a) (Some e)] ++ evs0 ++ evs').
      rewrite !invocations_app, Hi0. simpl. rewrite Hinv. reflexivity. }
    assert (Hwaits' :
              waits (Invoked (Z.of_nat a) (Some e) :: evs0 ++ evs')
              = d :: waits evs').
    { change (Invoked (Z.of_nat a) (Some e) :: evs0 ++ evs')
        with ([Invoked (Z.of_nat a) (Some e)] ++ evs0 ++ evs').
      rewrite !waits_app, Hw0. reflexivity. }
    rewrite Hwaits'.
    split; [cbn [length]; lia|].
    split.
    { change (Invoked (Z.of_nat a) (Some e) :: evs0 ++ evs')
        with ([Invoked (Z.of_nat a) (Some e)] ++ evs0 ++ evs').
      rewrite !notices_app, Hn0. cbn. apply announced_slept. assumption. }
    split; [congruence|].
    split.
    { cbn [length]. destruct (jitter config); lia. }
    split; [assumption|].
    intros Hc Hg. constructor.
    + assert (Hfst : fst (calculate_delay config (Z.of_nat a) (gen (sys w)))
                     = inl d) by now rewrite Hd.
      destruct (@calculate_delay_bounds config (Z.of_nat a) (gen (sys w)) d
                  Hc Hg Hfst) as (H0 & H1 & _).
      split; assumption.
    + apply Hb; [assumption|]. eapply unit_draws_same; eassumption.
  - destruct Hcase as (e & He & Hst0 & Hcu & Hnot & _).
    rewrite He in Ht0. cbn in Ht0.
    assert (Hw0 : waits (Invoked (Z.of_nat a) (Some e) :: evs0) = []).
    { change (Invoked (Z.of_nat a) (Some e) :: evs0)
        with ([Invoked (Z.of_nat a) (Some e)] ++ evs0).
      rewrite waits_app, <- (waits_steps evs0), Hst0. reflexivity. }
    exists (Invoked (Z.of_nat a) (Some e) :: evs0), 1%nat. rewrite Hw0.
    split; [assumption|].
    split.
    { change (Invoked (Z.of_nat a) (Some e) :: evs0)
        with ([Invoked (Z.of_nat a) (Some e)] ++ evs0).
      rewrite steps_app, Hst0. apply in_turn_last. }
    split; [lia|].
    split.
    { change (Invoked (Z.of_nat a) (Some e) :: evs0)
        with ([Invoked (Z.of_nat a) (Some e)] ++ evs0).
      rewrite invocations_app, Hi0. reflexivity. }
    split; [reflexivity|].
    split.
    { change (Invoked (Z.of_nat a) (Some e) :: evs0)
        with ([Invoked (Z.of_nat a) (Some e)] ++ evs0).
      rewrite notices_app. cbn [notices filter is_notice app].
      destruct Hnot as [->|(name & k & r & d & e' & -> & Hs)].
      - apply announced_none.
      - now apply announced_refused. }
    split; [assumption|].
    split.
    { cbn [length]. destruct (jitter config); lia. }
    split; [discriminate|].
    intros _ _. constructor.
Qed.


(** The run of the loop when the operation raises retryable failures on
    its first [i] invocations and then settles: it returns, raises
    another failure, or has no attempt left.  The operation has a name,
    the logger takes the record of the failure that ends the run, and the
    delays of the retried attempts are computed and slept. *)
Lemma retry_loop_settles (i : nat) :
  forall (a : nat) (rest : list Z) (last : option exn) (w : world S C)
         (name : string),
    __name__ func = Some name ->
    (forall e, outcome_at func i (op_state w) = inr e ->
       logger (sys w)
         (if isinstance e exceptions
          then Failed_after_retries name (max_retries config) e
          else Non_retryable name e) = None) ->
    (forall k g, (Z.of_nat a <= k < Z.of_nat (a + i))%Z ->
       draws g = draws (gen (sys w)) ->
       exists d, fst (calculate_delay config k g) = inl d /\
                 sleep_error how d = None) ->
    (forall j, (j < i)%nat ->
       exists e, outcome_at func j (op_state w) = inr e /\
                 isinstance e exceptions = true) ->
    (Z.of_nat (a + i) = max_retries config \/
     forall e, outcome_at func i (op_state w) = inr e ->
               isinstance e exceptions = false) ->
    (Z.of_nat (a + i) <= max_retries config)%Z ->
    exists evs tail w',
      loop_here (map Z.of_nat (seq a i) ++ Z.of_nat (a + i) :: rest) last w =
      (match outcome_at func i (op_state w) with
       | inl v => inl (Some v)
       | inr e => inr e
       end, w') /\
      trace (sys w') =
      trace (sys w) ++ evs
        ++ Invoked (Z.of_nat (a + i))
             (failure_of (outcome_at func i (op_state w))) :: tail /\
      length (invocations evs) = i /\
      length (waits evs) = i /\
      length (callbacks evs) =
      match on_retry with Some _ => i | None => O end /\
      op_state w' = state_after func (Datatypes.S i) (op_state w) /\
      tail =
      match outcome_at func i (op_state w) with
      | inl _ => []
      | inr e =>
          [Logged ERROR
             (if isinstance e exceptions
              then Failed_after_retries name (max_retries config) e
              else Non_retryable name e)]
      end.
Proof.
  induction i as [|i IH]; intros a rest last w name Hn Hq Hcalm Hfail Hend Hle.
  - cbn [seq map app]. rewrite Nat.add_0_r in *. rewrite retry_loop_cons.
    rewrite outcome_at_0 in *. cbn [state_after].
    destruct (call func (op_state w)) as [[v|e] s'] eqn:Hf; cbn [fst snd] in *.
    + erewrite attempt_once_success by eassumption.
      exists [], []. eexists. split; [reflexivity|]. cbn.
      repeat split. now destruct on_retry.
    + destruct (isinstance e exceptions) eqn:Hi.
      * destruct Hend as [Hend|Hend];
          [|specialize (Hend e eq_refl); congruence].
        rewrite Hend. specialize (Hq e eq_refl). rewrite Hi in Hq.
        erewrite attempt_once_exhausted by eassumption.
        exists []. eexists. eexists. split; [reflexivity|]. cbn.
        rewrite <- app_assoc. repeat split. now destruct on_retry.
      * specialize (Hq e eq_refl). rewrite Hi in Hq.
        erewrite attempt_once_other by eassumption.
        exists []. eexists. eexists. split; [reflexivity|]. cbn.
        rewrite <- app_assoc. repeat split. now destruct on_retry.
  - cbn [seq map app]. rewrite retry_loop_cons.
    destruct (Hfail O) as (e & He & Hi); [lia|].
    rewrite outcome_at_0 in He.
    destruct (call func (op_state w)) as [r s'] eqn:Hf. cbn [fst] in He.
    subst r.
    destruct (Hcalm (Z.of_nat a) (gen (sys w))) as (d & Hd & Hs);
      [lia|reflexivity|].
    destruct (calculate_delay config (Z.of_nat a) (gen (sys w))) as [r g]
      eqn:Hcd. cbn [fst] in Hd. subst r.
    assert (Hne : Z.of_nat a <> max_retries config) by lia.
    destruct (@attempt_once_retried_trace V S C how config exceptions on_retry
                func (Z.of_nat a) e s' d g name w Hf Hi Hne Hcd Hn Hs)
      as (w1 & evs1 & Hstep & Hs1 & _ & Hg1 & Hl1 & Ht1 & Hevs1).
    rewrite Hstep.
    destruct (retry_events_projections evs1 Hevs1)
      as (_ & Hw1 & Hi1 & _ & Hc1).
    pose proof (calculate_delay_generator config (Z.of_nat a) (gen (sys w)))
      as [Hdraws _]. rewrite Hcd in Hdraws. cbn [snd] in Hdraws.
    assert (Hstate : op_state w1 = snd (call func (op_state w)))
      by now rewrite Hf.
    destruct (IH (Datatypes.S a) rest (Some e) w1 name Hn)
      as (evs & tail & w' & Hrun & Ht & Hinv & Hwaits & Hcbs & Hop & Htail).
    { intros e'. rewrite Hstate, <- outcome_at_S, Hl1. apply Hq. }
    { intros k g' Hk Hg'. apply Hcalm; [lia|]. rewrite Hg', Hg1. assumption. }
    { intros j Hj. rewrite Hstate, <- outcome_at_S. apply Hfail. lia. }
    { rewrite Hstate, <- outcome_at_S.
      replace (Datatypes.S a + i)%nat with (a + Datatypes.S i)%nat by lia.
      assumption. }
    { lia. }
    rewrite Hstate, <- outcome_at_S in Hrun, Ht, Htail.
    replace (Datatypes.S a + i)%nat with (a + Datatypes.S i)%nat in Hrun, Ht
      by lia.
    exists ([Invoked (Z.of_nat a) (Some e)] ++ evs1 ++ evs), tail, w'.
    split; [exact Hrun|].
    split.
    { rewrite Ht, Ht1, <- !app_assoc. reflexivity. }
    rewrite !invocations_app, !waits_app, !callbacks_app, Hi1, Hw1, Hc1.
    rewrite !length_app, Hinv, Hwaits, Hcbs.
    split; [reflexivity|]. split; [reflexivity|].
    split; [destruct on_retry; reflexivity|].
    split; [|assumption].
    rewrite Hop, Hstate. reflexivity.
Qed.

(** Where the operation settles within [n] further invocations. *)
Lemma settle_point (n : nat) :
  forall s : S,
    exists i, (i <= n)%nat /\
      (forall j, (j < i)%nat ->
         exists e, outcome_at func j s = inr e /\
                   isinstance e exceptions = true) /\
      (i = n \/
       forall e, outcome_at func i s = inr e ->
                 isinstance e exceptions = false).
Proof.
  induction n as [|n IH]; intros s.
  - exists O. split; [lia|]. split; [intros j Hj; lia|now left].
  - destruct (call func s) as [[v|e] s'] eqn:Hf.
    + exists O. split; [lia|]. split; [intros j Hj; lia|].
      right. intros e. rewrite outcome_at_0, Hf. discriminate.
    + destruct (isinstance e exceptions) eqn:Hi.
      * destruct (IH s') as (i & Hle & Hbefore & Hend).
        exists (Datatypes.S i). split; [lia|]. split.
        -- intros [|j] Hj.
           ++ exists e. rewrite outcome_at_0, Hf. auto.
           ++ rewrite outcome_at_S, Hf. apply Hbefore. lia.
        -- rewrite outcome_at_S, Hf. cbn [snd].
           destruct Hend as [->|Hend]; [now left|now right].
      * exists O. split; [lia|]. split; [intros j Hj; lia|].
        right. intros e'. rewrite outcome_at_0, Hf. cbn [fst].
        intros H. inversion H. subst e'. assumption.
Qed.

End Loop.

(* ================================================================= *)
(** ** A callback that raises, and the same callback made quiet *)

Section Callback.

Variables V S C : Type.
Variable how : wait.
Variable config : RetryConfig.
Variable exceptions : list kind.
Variable func : operation V S.
Variable cb : retry_callback C.

Local Abbreviation loop_with :=
  (fun on_retry => retry_loop how config exceptions on_retry func).
Local Abbreviation attempt_with :=
  (fun on_retry => attempt_once how config exceptions on_retry func).

Ltac settle_alike Ht :=
  cbn [fst snd op_state cb_state sys gen trace logger];
  rewrite ?without_callback_errors_app, ?Ht;
  cbn [without_callback_errors filter is_callback_error negb];
  rewrite ?app_nil_r;
  repeat split; reflexivity.

(** One attempt with a callback, and with the callback made quiet. *)
Lemma attempt_once_quiet (a : Z) (w1 w2 : world S C) :
  alike w1 w2 ->
  fst (attempt_with (Some cb) a w1) = fst (attempt_with (Some (quiet cb)) a w2) /\
  alike (snd (attempt_with (Some cb) a w1))
        (snd (attempt_with (Some (quiet cb)) a w2)).
Proof.
  destruct w1 as [s1 c1 [g1 t1 l1]], w2 as [s2 c2 [g2 t2 l2]].
  unfold alike, same_but_callback_errors.
  cbn [op_state cb_state sys gen trace logger].
  intros ((<- & <- & <- & Ht) & <-).
  unfold attempt_once, retryable_handler, other_handler, try_except, bind,
    invoke, ret, raise, name_of, log_exc_info, log, sleep, delay_for,
    guarded_callback, call_back, quiet, on_sys, emit, set_gen.
  cbn [op_state cb_state sys gen trace logger].
  destruct (call func s1) as [[v|e] s']; cbn [fst snd failure_of];
    [settle_alike Ht|].
  destruct (isinstance e exceptions).
  - destruct (a =? max_retries config)%Z.
    + destruct (__name__ func) as [name|]; [|settle_alike Ht].
      cbn [sys logger].
      destruct (l1 (Failed_after_retries name (max_retries config) e));
        settle_alike Ht.
    + cbn [sys gen].
      destruct (calculate_delay config a g1) as [[d|err] g];
        [|settle_alike Ht].
      destruct (__name__ func) as [name|]; [|settle_alike Ht].
      unfold try_except, log, raise, on_sys, emit.
      cbn [op_state cb_state sys gen trace logger].
      destruct (cb e a c1) as [[ce|] c]; cbn [snd].
      * rewrite isinstance_Exception.
        destruct (sleep_error how d); settle_alike Ht.
      * destruct (sleep_error how d); settle_alike Ht.
  - rewrite isinstance_Exception.
    destruct (__name__ func) as [name|]; [|settle_alike Ht].
    cbn [sys logger].
    destruct (l1 (Non_retryable name e)); settle_alike Ht.
Qed.

Lemma retry_loop_quiet (attempts : list Z) :
  forall (last : option exn) (w1 w2 : world S C),
    alike w1 w2 ->
    fst (loop_with (Some cb) attempts last w1) =
    fst (loop_with (Some (quiet cb)) attempts last w2) /\
    alike (snd (loop_with (Some cb) attempts last w1))
          (snd (loop_with (Some (quiet cb)) attempts last w2)).
Proof.
  induction attempts as [|a rest IH]; intros last w1 w2 Hw.
  - simpl. destruct last; simpl; auto.
  - rewrite !retry_loop_cons.
    destruct (attempt_once_quiet a Hw) as [Hr Hw'].
    destruct (attempt_once how config exceptions (Some cb) func a w1)
      as [r1 w1'].
    destruct (attempt_once how config exceptions (Some (quiet cb)) func a w2)
      as [r2 w2'].
    simpl in Hr, Hw'. subst r2.
    destruct r1 as [[v|e]|e]; simpl; auto.
Qed.

End Callback.

Lemma executor_wrapper (V S C : Type) (how : wait) (cfg : RetryConfig)
  (classes : list kind) (on_retry : option (retry_callback C))
  (func : operation V S) :
  executor how (Some cfg) classes on_retry func =
  wrapper how cfg classes on_retry func.
Proof. destruct how; reflexivity. Qed.

(* ================================================================= *)
(** ** The retry scope, one [__exit__] at a time *)

(** One [__exit__] on a failure: the policy and the classes stay,
    [attempt] grows by one exactly when the failure is suppressed, which
    needs an attempt left, and there is one wait exactly then. *)
Lemma exit_step (ctx : RetryContext.t) (e : exn) (en : env) :
  let '(result, ctx', en') := RetryContext.__exit__ ctx (Some e) en in
  RetryContext.config ctx' = RetryContext.config ctx /\
  RetryContext.exceptions ctx' = RetryContext.exceptions ctx /\
  RetryContext.attempt ctx' =
  (RetryContext.attempt ctx
   + match result with inl true => 1 | _ => 0 end)%Z /\
  (result = inl true ->
   (RetryContext.attempt ctx < max_retries (RetryContext.config ctx))%Z) /\
  length (waits (trace en')) =
  (length (waits (trace en))
   + match result with inl true => 1 | _ => 0 end)%nat.
Proof.
  unfold RetryContext.__exit__.
  destruct (issubclass_any (exn_kind e) (RetryContext.exceptions ctx));
    cbn [negb].
  - cbn [RetryContext.set_last_exception RetryContext.attempt
         RetryContext.config].
    destruct (Z.geb_spec (RetryContext.attempt ctx)
                (max_retries (RetryContext.config ctx))) as [Hge|Hlt].
    + destruct (logger en _); cbn; rewrite ?waits_app; cbn;
        rewrite ?app_nil_r; repeat split; try lia; try discriminate.
    + destruct (calculate_delay (RetryContext.config ctx)
                  (RetryContext.attempt ctx) (gen en)) as [[delay|err] g].
      * destruct (time_sleep_error delay); cbn;
          rewrite ?waits_app, ?length_app; cbn; rewrite ?app_nil_r;
          repeat split; try lia; try discriminate.
      * cbn [set_gen trace RetryContext.set_last_exception
             RetryContext.attempt RetryContext.config
             RetryContext.exceptions].
        repeat split; try lia; try discriminate.
  - repeat split; try lia; try discriminate.
Qed.

Section Scope_loop.

Variables V S C : Type.
Variable cfg : RetryConfig.
Variable classes : list kind.
Variable func : operation V S.

(** The loop of the usage example always ends while the scope has an
    attempt left, and not by falling through. *)
Lemma scope_loop_ends (n : nat) :
  forall (fuel : nat) (ctx : RetryContext.t) (w : world S unit),
    (RetryContext.attempt ctx
     <= max_retries (RetryContext.config ctx))%Z ->
    Z.to_nat (max_retries (RetryContext.config ctx)
              - RetryContext.attempt ctx) = n ->
    (n < fuel)%nat ->
    exists ending ctx' w',
      scope_loop func fuel ctx w = Some (ending, ctx', w') /\
      forall last, ending <> Fell_through last.
Proof.
  induction n as [|n IH]; intros fuel ctx w Hle Hn Hfuel;
    (destruct fuel as [|fuel]; [lia|]);
    cbn [scope_loop];
    (replace (RetryContext.attempt ctx
              <=? max_retries (RetryContext.config ctx))%Z with true
       by (symmetry; apply Z.leb_le; assumption));
    unfold RetryContext.__enter__;
    destruct (invoke func (RetryContext.attempt ctx) w) as [[v|e] w1];
    try (cbn; do 3 eexists; split; [reflexivity|]; intros last; discriminate);
    pose proof (exit_step ctx e (sys w1)) as Hstep;
    destruct (RetryContext.__exit__ ctx (Some e) (sys w1))
      as [[[[|]|err] ctx1] en1];
    try (do 3 eexists; split; [reflexivity|]; intros last; discriminate);
    destruct Hstep as (Hc & _ & Ha & Hlt & _); specialize (Hlt eq_refl).
  - lia.
  - apply IH; rewrite ?Hc, ?Ha; lia.
Qed.

Ltac settle_scope Ht :=
  do 3 eexists; (split; [reflexivity|]);
  cbn [fst snd op_state cb_state sys gen trace logger];
  rewrite ?without_logs_app, ?Ht;
  cbn [without_logs filter is_log negb]; rewrite ?app_nil_r;
  (split;
   [first [left; eexists; split; reflexivity
          |right; eexists; split; reflexivity]|]);
  repeat split; reflexivity.

(** The loop of the usage example, step by step against the loop of
    [sync_retry] without a callback, for an operation with a name and a
    logger that takes the records. *)
Lemma scope_loop_simulates (len : nat) :
  forall (a fuel : nat) (ctx : RetryContext.t) (last : option exn)
         (w1 : world S C) (w2 : world S unit),
    RetryContext.attempt ctx = Z.of_nat a ->
    RetryContext.config ctx = cfg ->
    RetryContext.exceptions ctx = classes ->
    Z.of_nat (a + len) = (max_retries cfg + 1)%Z ->
    (0 < len <= fuel)%nat ->
    named func ->
    quiet_logger (sys w1) ->
    quiet_logger (sys w2) ->
    op_state w1 = op_state w2 ->
    gen (sys w1) = gen (sys w2) ->
    without_logs (trace (sys w1)) = without_logs (trace (sys w2)) ->
    exists ending ctx' w2',
      scope_loop func fuel ctx w2 = Some (ending, ctx', w2') /\
      ((exists v,
          fst (retry_loop Blocking cfg classes None func
                 (map Z.of_nat (seq a len)) last w1) = inl (Some v) /\
          ending = Returned v) \/
       (exists e,
          fst (retry_loop Blocking cfg classes None func
                 (map Z.of_nat (seq a len)) last w1) = inr e /\
          ending = Propagated e)) /\
      op_state (snd (retry_loop Blocking cfg classes None func
                       (map Z.of_nat (seq a len)) last w1)) = op_state w2' /\
      gen (sys (snd (retry_loop Blocking cfg classes None func
                       (map Z.of_nat (seq a len)) last w1))) = gen (sys w2') /\
      without_logs
        (trace (sys (snd (retry_loop Blocking cfg classes None func
                            (map Z.of_nat (seq a len)) last w1)))) =
      without_logs (trace (sys w2')).
Proof.
  induction len as [|len IH];
    intros a fuel ctx last w1 w2 Ha Hcfg Hcl Hlen Hfuel Hnamed Hq1 Hq2
      Hs Hg Ht; [lia|].
  destruct fuel as [|fuel]; [lia|].
  destruct Hnamed as [name Hname].
  cbn [seq map scope_loop]. rewrite retry_loop_cons.
  rewrite Ha, Hcfg.
  replace (Z.of_nat a <=? max_retries cfg)%Z with true
    by (symmetry; apply Z.leb_le; lia).
  destruct w1 as [s1 c1 [g1 t1 l1]], w2 as [s2 c2 [g2 t2 l2]].
  unfold quiet_logger in Hq1, Hq2.
  cbn [op_state cb_state sys gen trace logger] in Hs, Hg, Ht, Hq1, Hq2.
  subst s2 g2.
  unfold RetryContext.__enter__, RetryContext.__exit__.
  unfold attempt_once, retryable_handler, other_handler, guarded_callback,
    try_except, bind, invoke, ret, raise, name_of, log_exc_info, log, sleep,
    delay_for, on_sys, emit, set_gen.
  cbn [op_state cb_state sys gen trace logger].
  rewrite Ha, Hcl, Hname.
  destruct (call func s1) as [[v|e] s']; cbn [fst snd failure_of].
  - settle_scope Ht.
  - change (issubclass_any (exn_kind e) classes) with (isinstance e classes).
    destruct (isinstance e classes) eqn:Hi; cbn [negb].
    + cbn [RetryContext.set_last_exception RetryContext.attempt
           RetryContext.config].
      rewrite Ha, Hcfg.
      destruct (Z.eq_dec (Z.of_nat a) (max_retries cfg)) as [Hmax|Hmax].
      * rewrite Hmax, Z.eqb_refl, Z.geb_leb, Z.leb_refl, Hq1, Hq2.
        settle_scope Ht.
      * replace (Z.of_nat a =? max_retries cfg)%Z with false
          by (symmetry; apply Z.eqb_neq; assumption).
        replace (Z.of_nat a >=? max_retries cfg)%Z with false
          by (symmetry; rewrite Z.geb_leb; apply Z.leb_gt; lia).
        cbn [op_state cb_state sys gen trace logger].
        destruct (calculate_delay cfg (Z.of_nat a) g1) as [[d|err] g];
          [|settle_scope Ht].
        unfold sleep_error.
        destruct (time_sleep_error d); [settle_scope Ht|].
        cbn [fst snd op_state cb_state sys gen trace logger].
        match goal with
        | |- context [scope_loop func fuel ?c ?w] =>
            match goal with
            | |- context [retry_loop _ _ _ _ _ _ _ ?w1'] =>
                destruct (IH (Datatypes.S a) fuel c (Some e) w1' w)
                  as (ending & ctx' & w2' & Hloop & Hres & Hs' & Hg' & Ht')
            end
        end; try (cbn; first [assumption | lia | reflexivity]).
        -- exists name. assumption.
        -- cbn [sys trace]. rewrite !without_logs_app, Ht. reflexivity.
        -- exists ending, ctx', w2'. auto.
    + rewrite isinstance_Exception, Hq1. settle_scope Ht.
Qed.

End Scope_loop.

(* ================================================================= *)
(** ** The wrapper of the executors *)

Section Wrapper.

Variables V S C : Type.
Variable how : wait.
Variable config : RetryConfig.
Variable exceptions : list kind.
Variable on_retry : option (retry_callback C).
Variable func : operation V S.

Local Abbreviation wrapper_here :=
  (wrapper how config exceptions on_retry func).

(** The run of the wrapper when the operation settles at invocation
    [i]. *)
Lemma wrapper_settles_at (i : nat) (w : world S C) (name : string) :
  __name__ func = Some name ->
  (forall e, outcome_at func i (op_state w) = inr e ->
     logger (sys w)
       (if isinstance e exceptions
        then Failed_after_retries name (max_retries config) e
        else Non_retryable name e) = None) ->
  delays_are_slept how config (gen (sys w)) (Z.of_nat i) ->
  (forall j, (j < i)%nat ->
     exists e, outcome_at func j (op_state w) = inr e /\
               isinstance e exceptions = true) ->
  (Z.of_nat i = max_retries config \/
   forall e, outcome_at func i (op_state w) = inr e ->
             isinstance e exceptions = false) ->
  (Z.of_nat i <= max_retries config)%Z ->
  exists evs tail w',
    wrapper_here w =
    (match outcome_at func i (op_state w) with
     | inl v => inl (Some v)
     | inr e => inr e
     end, w') /\
    trace (sys w') =
    trace (sys w) ++ evs
      ++ Invoked (Z.of_nat i)
           (failure_of (outcome_at func i (op_state w))) :: tail /\
    length (invocations evs) = i /\
    length (waits evs) = i /\
    length (callbacks evs) =
    match on_retry with Some _ => i | None => O end /\
    op_state w' = state_after func (Datatypes.S i) (op_state w) /\
    tail =
    match outcome_at func i (op_state w) with
    | inl _ => []
    | inr e =>
        [Logged ERROR
           (if isinstance e exceptions
            then Failed_after_retries name (max_retries config) e
            else Non_retryable name e)]
    end.
Proof.
  intros Hn Hq Hcalm Hfail Hend Hle. unfold wrapper.
  destruct (@range_split (max_retries config) i Hle) as [rest ->].
  apply (@retry_loop_settles V S C how config exceptions on_retry func i O
           rest None w name); assumption.
Qed.

(** The same, at the invocation where the operation settles. *)
Lemma wrapper_settles (w : world S C) (name : string) :
  (0 <= max_retries config)%Z ->
  __name__ func = Some name ->
  takes_failures func config w ->
  delays_are_slept how config (gen (sys w)) (max_retries config) ->
  exists i evs tail w',
    (Z.of_nat i <= max_retries config)%Z /\
    (forall j, (j < i)%nat ->
       exists e, outcome_at func j (op_state w) = inr e /\
                 isinstance e exceptions = true) /\
    (Z.of_nat i = max_retries config \/
     forall e, outcome_at func i (op_state w) = inr e ->
               isinstance e exceptions = false) /\
    wrapper_here w =
    (match outcome_at func i (op_state w) with
     | inl v => inl (Some v)
     | inr e => inr e
     end, w') /\
    trace (sys w') =
    trace (sys w) ++ evs
      ++ Invoked (Z.of_nat i)
           (failure_of (outcome_at func i (op_state w))) :: tail /\
    length (invocations evs) = i /\
    length (waits evs) = i /\
    op_state w' = state_after func (Datatypes.S i) (op_state w) /\
    invocations tail = [].
Proof.
  intros Hmax Hn Hq Hcalm.
  destruct (@settle_point V S exceptions func (Z.to_nat (max_retries config))
              (op_state w)) as (i & Hi & Hfail & Hend).
  assert (Hle : (Z.of_nat i <= max_retries config)%Z) by lia.
  assert (Hend' : Z.of_nat i = max_retries config \/
                  forall e, outcome_at func i (op_state w) = inr e ->
                            isinstance e exceptions = false).
  { destruct Hend as [->|Hend]; [left; lia|now right]. }
  destruct (@wrapper_settles_at i w name Hn) as
    (evs & tail & w' & Hrun & Ht & Hinv & Hw & _ & Hop & Htail);
    try assumption.
  { intros e He. destruct (Hq i e name He Hn) as [Hq1 Hq2].
    now destruct (isinstance e exceptions). }
  { intros k g Hk Hg. apply Hcalm; [lia|assumption]. }
  exists i, evs, tail, w'. repeat split; try assumption.
  rewrite Htail. now destruct (outcome_at func i (op_state w)).
Qed.

End Wrapper.

(** With a negative [max_retries] the loop has no attempt. *)
Lemma wrapper_without_attempts (V S C : Type) (how : wait)
  (cfg : RetryConfig) (classes : list kind)
  (on_retry : option (retry_callback C)) (func : operation V S)
  (w : world S C) :
  (max_retries cfg < 0)%Z ->
  wrapper how cfg classes on_retry func w = (inl None, w).
Proof.
  intros Hn. unfold wrapper.
  assert (Hempty : range (max_retries cfg + 1) = []).
  { apply range_nonpositive. lia. }
  rewrite Hempty. reflexivity.
Qed.


Lemma scenario_A_delays_are_slept (how : wait) (g0 : rng) (upto : Z) :
  (upto <= 3)%Z -> delays_are_slept how scenario_A g0 upto.
Proof.
  intros Hu k g Hk _. assert (H : (k = 0 \/ k = 1 \/ k = 2)%Z) by lia.
  destruct H as [-> | [-> | ->]]; eexists;
    (split; [vm_compute; reflexivity|destruct how; vm_compute; reflexivity]).
Qed.

(** The sink takes the records of the failure [connection_error]. *)
Lemma sink_takes_connection_errors (failures : nat) (cfg : RetryConfig)
  (g : rng) :
  takes_failures (flaky failures connection_error) cfg (start_with_sink g).
Proof.
  intros j e name He _.
  assert (Hsame : e = connection_error).
  { unfold outcome_at, flaky in He. cbn [call fst] in He.
    destruct (_ <? failures)%nat in He; inversion He; reflexivity. }
  subst e. split; reflexivity.
Qed.

(* ================================================================= *)
(** ** The claims about the executors *)

(** C1. The claim fails in the code: with a sink installed, a policy
    without retries and an operation that raises a retryable failure
    whose text is [{x}], [sync_retry] and [async_retry] invoke the
    operation once and raise [KeyError], not the failure of the
    operation: the record of the exhausted retries is logged with
    [exc_info=True], and the logger formats its text with that keyword. *)
Theorem exhausted_retries_raise_key_error (how : wait) :
  outcome_at (flaky 1 braces_error) 0 0%nat = inr braces_error /\
  isinstance braces_error [ValueError] = true /\
  fst (executor how (Some no_retry) [ValueError]
         (@None (retry_callback nat)) (flaky 1 braces_error)
         (start_with_sink (constant_rng 0))) = inr key_error /\
  invocations
    (trace (sys (snd (executor how (Some no_retry) [ValueError]
                        (@None (retry_callback nat)) (flaky 1 braces_error)
                        (start_with_sink (constant_rng 0))))))
  = [(0%Z, Some braces_error)] /\
  exn_kind key_error <> exn_kind braces_error.
Proof.
  destruct how; repeat split; try (vm_compute; reflexivity); discriminate.
Qed.




(** C4. The claim fails in the code: with a sink installed and an
    operation that raises a failure outside the retryable classes whose
    text is [{x}], either executor invokes the operation once and raises
    [KeyError] in place of that failure: the record of the failure is
    logged with [exc_info=True], and the logger formats its text with
    that keyword. *)
Theorem other_failure_raises_key_error (how : wait) :
  outcome_at (flaky 1 braces_error) 0 0%nat = inr braces_error /\
  isinstance braces_error [ConnectionError] = false /\
  executor how (Some scenario_A) [ConnectionError]
    (@None (retry_callback nat)) (flaky 1 braces_error)
    (start_with_sink (constant_rng 0)) =
  (inr key_error,
   mkWorld 1%nat 0%nat
     (mkEnv (constant_rng 0) [Invoked 0 (Some braces_error)] sink_logger)).
Proof.
  destruct how; repeat split.
Qed.

(** C5. The claim fails in the code in its last part: with a sink
    installed, a failure whose class has no ancestor among the retryable
    classes and whose text is [{x}] does not propagate unmodified from
    [sync_retry]; [KeyError] is raised in its place on its first
    occurrence. *)
Theorem unlisted_failure_is_replaced_by_key_error :
  (forall c, In c [ContestTradeException] ->
             exn_kind braces_error <> c /\
             ~ descendant (exn_kind braces_error) c) /\
  fst (sync_retry (Some default_config) [ContestTradeException]
         (@None (retry_callback nat)) (flaky 1 braces_error)
         (start_with_sink (constant_rng 0))) = inr key_error /\
  key_error <> braces_error.
Proof.
  split; [|split; [reflexivity|discriminate]].
  intros c [<-|[]]. split; [discriminate|].
  intros Hd.
  assert (H : isinstance braces_error [ContestTradeException] = true).
  { apply isinstance_iff. exists ContestTradeException.
    split; [now left|now right]. }
  discriminate H.
Qed.




(** C8. For both executors: a callback that raises changes nothing but
    the log.  The run is the run with the quiet callback (the same effect
    on the callback's state, no failure): the same result or raised
    failure, the same final states, the same invocations, waits and calls
    in the same order, records of callback errors aside.  And when the
    operation has a [__name__], the logger takes the records of its
    failures and the delays are computed and slept, a failure the
    executor raises is the one the last invocation of the operation
    produced. *)
Theorem callback_failure_is_discarded
  (V S C : Type) (how : wait) (cfg : RetryConfig) (classes : list kind)
  (cb : retry_callback C) (func : operation V S) (w : world S C) :
  fst (executor how (Some cfg) classes (Some cb) func w) =
  fst (executor how (Some cfg) classes (Some (quiet cb)) func w) /\
  same_but_callback_errors
    (snd (executor how (Some cfg) classes (Some cb) func w))
    (snd (executor how (Some cfg) classes (Some (quiet cb)) func w)) /\
  (named func -> takes_failures func cfg w ->
   delays_are_slept how cfg (gen (sys w)) (max_retries cfg) ->
   forall e,
     fst (executor how (Some cfg) classes (Some cb) func w) = inr e ->
     exists evs,
       trace (sys (snd (executor how (Some cfg) classes (Some cb) func w))) =
       trace (sys w) ++ evs /\
       List.last (map snd (invocations evs)) None = Some e).
Proof.
  rewrite !executor_wrapper. unfold wrapper at 1 2 3 4.
  destruct (@retry_loop_quiet V S C how cfg classes func cb
              (range (max_retries cfg + 1)) None w w) as [Hr [Hw _]].
  { repeat split. }
  split; [assumption|]. split; [assumption|].
  intros [name Hn] Hq Hcalm e He.
  destruct (Z.lt_ge_cases (max_retries cfg) 0) as [Hneg|Hpos].
  - rewrite wrapper_without_attempts in He by assumption. discriminate He.
  - destruct (@wrapper_settles V S C how cfg classes (Some cb) func w name
                Hpos Hn Hq Hcalm)
      as (i & evs & tail & w' & _ & _ & _ & Hrun & Ht & _ & _ & _ & Htail).
    rewrite Hrun in He |- *. cbn [fst snd] in *.
    destruct (outcome_at func i (op_state w)) as [v|e'];
      [discriminate He|].
    inversion He. subst e'. cbn [failure_of] in Ht.
    exists (evs ++ Invoked (Z.of_nat i) (Some e) :: tail).
    split; [assumption|].
    change (Invoked (Z.of_nat i) (Some e) :: tail)
      with ([Invoked (Z.of_nat i) (Some e)] ++ tail).
    rewrite !invocations_app, Htail, app_nil_r, map_app. cbn.
    apply last_last.
Qed.

(* ================================================================= *)
(** ** The claims about the policy *)






(* ================================================================= *)
(** ** The claims about the retry scope *)

(** C6. The claim fails in the code where the retries are exhausted:
    with a sink installed, a scope without retries left and a retryable
    failure whose text is [{x}], [__exit__] raises [KeyError], so the
    failure of the block does not propagate: the record of the exhausted
    retries is logged with [exc_info=True], and the logger formats its
    text with that keyword. *)
Theorem scope_exhausted_raises_key_error :
  isinstance braces_error
    (RetryContext.exceptions
       (RetryContext.__init__ (Some no_retry) [ValueError])) = true /\
  (RetryContext.attempt (RetryContext.__init__ (Some no_retry) [ValueError])
   >= max_retries
        (RetryContext.config
           (RetryContext.__init__ (Some no_retry) [ValueError])))%Z /\
  RetryContext.__exit__ (RetryContext.__init__ (Some no_retry) [ValueError])
    (Some braces_error) (mkEnv (constant_rng 0) [] sink_logger) =
  (inr key_error,
   RetryContext.set_last_exception braces_error
     (RetryContext.__init__ (Some no_retry) [ValueError]),
   mkEnv (constant_rng 0) [] sink_logger).
Proof. split; [reflexivity|]. split; [cbn; lia|reflexivity]. Qed.

(** C10. A new scope has [attempt = 0] and no [last_exception].  Every
    [__exit__] on a failure of a retryable class records that failure in
    [last_exception], both when it suppresses the failure
    ([attempt < max_retries]) and when it lets it propagate, and a value
    it returns is [True] exactly when [attempt < max_retries]; on a
    failure of another class it returns [False] and leaves the scope,
    [attempt] and [last_exception] included, as it was. *)
Theorem scope_remembers_the_last_retryable_failure :
  (forall (config : option RetryConfig) (classes : list kind),
     RetryContext.attempt (RetryContext.__init__ config classes) = 0%Z /\
     RetryContext.last_exception (RetryContext.__init__ config classes) = None) /\
  (forall (ctx : RetryContext.t) (e : exn) (en : env),
     isinstance e (RetryContext.exceptions ctx) = true ->
     RetryContext.last_exception
       (snd (fst (RetryContext.__exit__ ctx (Some e) en))) = Some e /\
     forall b,
       fst (fst (RetryContext.__exit__ ctx (Some e) en)) = inl b ->
       b = (RetryContext.attempt ctx <? max_retries (RetryContext.config ctx))%Z) /\
  (forall (ctx : RetryContext.t) (e : exn) (en : env),
     isinstance e (RetryContext.exceptions ctx) = false ->
     snd (fst (RetryContext.__exit__ ctx (Some e) en)) = ctx /\
     fst (fst (RetryContext.__exit__ ctx (Some e) en)) = inl false).
Proof.
  split; [intros; split; reflexivity|]. split.
  - intros ctx e en Hi.
    unfold RetryContext.__exit__. unfold isinstance in Hi. rewrite Hi.
    cbn [negb RetryContext.set_last_exception RetryContext.attempt
         RetryContext.config].
    rewrite Z.geb_leb, Z.ltb_antisym.
    destruct (max_retries (RetryContext.config ctx) <=? RetryContext.attempt ctx)%Z.
    + destruct (logger en _); cbn; split; try reflexivity;
        intros b H; inversion H; reflexivity.
    + destruct (calculate_delay (RetryContext.config ctx)
                  (RetryContext.attempt ctx) (gen en)) as [[delay|err] g].
      * destruct (time_sleep_error delay); cbn; split; try reflexivity;
          intros b H; inversion H; reflexivity.
      * cbn. split; [reflexivity|]. intros b H. discriminate H.
  - intros ctx e en Hi.
    unfold RetryContext.__exit__. unfold isinstance in Hi. rewrite Hi.
    split; reflexivity.
Qed.

(* ================================================================= *)
(** ** More on the policy *)

(** X1. Without jitter, with [initial_delay >= 0] and
    [exponential_base >= 1], the delays that are computed never decrease
    from an attempt to a later one. *)
Theorem delay_is_monotone (cfg : RetryConfig) (k k' : Z) (g g' : rng)
  (d d' : Q) :
  0 <= initial_delay cfg ->
  1 <= exponential_base cfg ->
  jitter cfg = false ->
  (k <= k')%Z ->
  fst (calculate_delay cfg k g) = inl d ->
  fst (calculate_delay cfg k' g') = inl d' ->
  d <= d'.
Proof.
  intros Hd Hb Hj Hk. unfold calculate_delay. rewrite Hj.
  destruct (backoff cfg k) as [b|] eqn:E; [|discriminate].
  destruct (backoff cfg k') as [b'|] eqn:E'; [|discriminate].
  cbn. intros H H'. inversion H. inversion H'. subst.
  apply backoff_value in E, E'. subst.
  apply py_min_le_compat. now apply envelope_le.
Qed.

Lemma delay_is_monotone_witness :
  fst (calculate_delay scenario_D 0 (constant_rng 0)) = inl 10 /\
  fst (calculate_delay scenario_D 1 (constant_rng (1 # 2))) = inl 15 /\
  10 <= 15.
Proof.
  split; [reflexivity|]. split; [reflexivity|].
  apply (@delay_is_monotone scenario_D 0 1 (constant_rng 0)
           (constant_rng (1 # 2)) 10 15).
  - unfold Qle. simpl. lia.
  - unfold Qle. simpl. lia.
  - reflexivity.
  - lia.
  - reflexivity.
  - reflexivity.
Defined.

(** X2. Under a valid policy and draws in [0, 1), a delay that
    [calculate_delay] computes is positive and at most [max_delay] (times
    the upper end of [jitter_range] with jitter); with jitter it lies
    between the clamped envelope times the lower end and times the upper
    end of [jitter_range].  What it raises instead is an
    [OverflowError], and then it draws nothing. *)
Theorem delay_is_positive_and_bounded (cfg : RetryConfig) (k : Z) (g : rng) :
  valid_policy cfg ->
  unit_draws g ->
  (forall d, fst (calculate_delay cfg k g) = inl d ->
     0 < d /\ d <= wait_ceiling cfg /\
     (jitter cfg = true ->
      Qmin (initial_delay cfg * exponential_base cfg ^ k) (max_delay cfg)
        * fst (jitter_range cfg) <= d /\
      d <=
      Qmin (initial_delay cfg * exponential_base cfg ^ k) (max_delay cfg)
        * snd (jitter_range cfg))) /\
  (forall err, fst (calculate_delay cfg k g) = inr err ->
     exn_kind err = OverflowError /\ snd (calculate_delay cfg k g) = g).
Proof.
  intros Hc Hg. split.
  - intros d Hd.
    destruct (@calculate_delay_bounds cfg k g d Hc Hg Hd) as (H0 & H1 & Hj).
    split; [assumption|]. split; [assumption|].
    intros Hjit. destruct (Hj Hjit) as (b & Hb & Hlo & Hhi).
    apply backoff_value in Hb. rewrite py_min_Qmin in Hb. subst b. auto.
  - intros err. unfold calculate_delay, backoff, float_pow.
    destruct Hc as (_ & _ & _ & Hb & _).
    assert (Hnz : Qeq_bool (exponential_base cfg) 0 = false).
    { destruct (Qeq_bool (exponential_base cfg) 0) eqn:E; [|reflexivity].
      apply Qeq_bool_iff in E. rewrite E in Hb. discriminate Hb. }
    rewrite Hnz. cbn [andb].
    destruct (Qltb double_max (Qabs (inject_Z k))).
    + cbn. intros H. inversion H. split; reflexivity.
    + destruct (Qltb double_max (Qabs (exponential_base cfg ^ k))).
      * cbn. intros H. inversion H. split; reflexivity.
      * destruct (jitter cfg); [|discriminate].
        destruct (jitter_range cfg) as [lo hi].
        destruct (uniform lo hi g). discriminate.
Qed.

Lemma delay_is_positive_and_bounded_witness :
  (forall d,
     fst (calculate_delay default_config 6 (constant_rng (3 # 4))) = inl d ->
     0 < d /\ d <= wait_ceiling default_config /\
     (jitter default_config = true ->
      Qmin (initial_delay default_config * exponential_base default_config ^ 6)
        (max_delay default_config)
        * fst (jitter_range default_config) <= d /\
      d <=
      Qmin (initial_delay default_config * exponential_base default_config ^ 6)
        (max_delay default_config)
        * snd (jitter_range default_config))) /\
  (forall err,
     fst (calculate_delay default_config 6 (constant_rng (3 # 4))) = inr err ->
     exn_kind err = OverflowError /\
     snd (calculate_delay default_config 6 (constant_rng (3 # 4)))
     = constant_rng (3 # 4)).
Proof.
  apply (@delay_is_positive_and_bounded default_config 6
           (constant_rng (3 # 4))).
  - unfold valid_policy, Qlt, Qle. simpl. lia.
  - intros i. unfold Qlt, Qle. simpl. lia.
Defined.

(** X3. Without jitter, with [initial_delay >= 0] and
    [exponential_base >= 1], once [initial_delay * base^k] has reached
    [max_delay], the delay of every later attempt, when it is computed,
    is [max_delay]. *)
Theorem delay_stays_at_the_ceiling (cfg : RetryConfig) (k k' : Z) (g : rng)
  (d : Q) :
  0 <= initial_delay cfg ->
  1 <= exponential_base cfg ->
  jitter cfg = false ->
  max_delay cfg <= initial_delay cfg * exponential_base cfg ^ k ->
  (k <= k')%Z ->
  fst (calculate_delay cfg k' g) = inl d ->
  d == max_delay cfg.
Proof.
  intros Hd Hb Hj Hreach Hk. unfold calculate_delay. rewrite Hj.
  destruct (backoff cfg k') as [b|] eqn:E; [|discriminate].
  cbn. intros H. inversion H. subst b.
  apply backoff_value in E. subst d. rewrite py_min_Qmin.
  apply Q.min_r. eapply Qle_trans; [exact Hreach|]. now apply envelope_le.
Qed.

Lemma delay_stays_at_the_ceiling_witness :
  fst (calculate_delay scenario_D 7 (constant_rng 0)) = inl 15 /\
  15 == max_delay scenario_D.
Proof.
  split; [reflexivity|].
  apply (@delay_stays_at_the_ceiling scenario_D 1 7 (constant_rng 0) 15).
  - unfold Qle. simpl. lia.
  - unfold Qle. simpl. lia.
  - reflexivity.
  - unfold Qle. simpl. lia.
  - lia.
  - reflexivity.
Defined.

(* ================================================================= *)
(** ** More on the executors *)

(** X4. With a negative [max_retries] either executor returns [None]
    without invoking the operation, and without any other effect: the
    statements after the loop are reached with no remembered failure. *)
Theorem negative_max_retries_returns_none
  (V S C : Type) (how : wait) (cfg : RetryConfig) (classes : list kind)
  (on_retry : option (retry_callback C)) (func : operation V S)
  (w : world S C) :
  (max_retries cfg < 0)%Z ->
  executor how (Some cfg) classes on_retry func w = (inl None, w).
Proof.
  intros Hn. rewrite executor_wrapper. now apply wrapper_without_attempts.
Qed.

Lemma negative_max_retries_returns_none_witness :
  sync_retry
    (Some (mkRetryConfig (-1) 1 60 2 true (1 # 2, 3 # 2))) [Exception] None
    (flaky 0 connection_error) (start (constant_rng (1 # 2)))
  = (inl None, start (constant_rng (1 # 2))).
Proof.
  apply (@negative_max_retries_returns_none nat nat nat Blocking
           (mkRetryConfig (-1) 1 60 2 true (1 # 2, 3 # 2)) [Exception] None
           (flaky 0 connection_error) (start (constant_rng (1 # 2)))).
  simpl. lia.
Defined.

(** X5. With [max_retries >= 0] and whatever the operation, the
    callback, the policy and the logger do, either executor invokes the
    operation at least once and at most [max_retries + 1] times, on the
    attempts [0, 1, 2, ...] in order; between two consecutive invocations
    it waits exactly once, after the first of them and before the second,
    and it waits at no other time; every invocation but the last failed;
    and it never falls off the end of its loop: it returns a result of
    the operation or raises. *)
Theorem executor_invokes_and_waits_in_turn
  (V S C : Type) (how : wait) (cfg : RetryConfig) (classes : list kind)
  (on_retry : option (retry_callback C)) (func : operation V S)
  (w : world S C) :
  (0 <= max_retries cfg)%Z ->
  exists evs m,
    trace (sys (snd (executor how (Some cfg) classes on_retry func w))) =
    trace (sys w) ++ evs /\
    in_turn how 0 (steps evs) /\
    (1 <= m <= Z.to_nat (max_retries cfg + 1))%nat /\
    map fst (invocations evs) = range (Z.of_nat m) /\
    length (waits evs) = (m - 1)%nat /\
    fst (executor how (Some cfg) classes on_retry func w) <> inl None.
Proof.
  intros Hn. rewrite executor_wrapper. unfold wrapper. rewrite range_seq.
  destruct (@retry_loop_shape V S C how cfg classes on_retry func
              (Z.to_nat (max_retries cfg + 1)) O None w
              ltac:(lia) ltac:(lia))
    as (evs & m & Ht & Hturn & Hm & Hinv & Hw & _ & _ & _ & Hres & _).
  exists evs, m. rewrite range_seq, Nat2Z.id. auto 10.
Qed.

Lemma executor_invokes_and_waits_in_turn_witness :
  exists evs m,
    trace (sys (snd (async_retry (Some scenario_A) [OSError]
                       (Some (raising_callback value_error))
                       (flaky 2 connection_error)
                       (start (constant_rng (1 # 2)))))) = [] ++ evs /\
    in_turn Suspending 0 (steps evs) /\
    (1 <= m <= 4)%nat /\
    map fst (invocations evs) = range (Z.of_nat m) /\
    length (waits evs) = (m - 1)%nat /\
    fst (async_retry (Some scenario_A) [OSError]
           (Some (raising_callback value_error))
           (flaky 2 connection_error) (start (constant_rng (1 # 2))))
    <> inl None.
Proof.
  apply (@executor_invokes_and_waits_in_turn nat nat nat Suspending scenario_A
           [OSError] (Some (raising_callback value_error))
           (flaky 2 connection_error) (start (constant_rng (1 # 2)))).
  simpl. lia.
Defined.

(** X6. With [max_retries >= 0], an operation that has a [__name__], a
    logger that takes the records of its failures and delays that are
    computed and slept, whatever the operation does: the result of either
    executor is
    settled by the first invocation [i] that is not a retryable failure,
    or by invocation [max_retries]: the invocations before [i] raised
    retryable failures, the operation was invoked [i + 1] times, a
    returned value is the value invocation [i] returned, and a raised
    failure is the failure invocation [i] raised, which is not retryable
    unless [i = max_retries]. *)
Theorem executor_result_is_settled_by_one_invocation
  (V S C : Type) (how : wait) (cfg : RetryConfig) (classes : list kind)
  (on_retry : option (retry_callback C)) (func : operation V S)
  (w : world S C) :
  (0 <= max_retries cfg)%Z ->
  named func ->
  takes_failures func cfg w ->
  delays_are_slept how cfg (gen (sys w)) (max_retries cfg) ->
  exists i,
    (Z.of_nat i <= max_retries cfg)%Z /\
    (forall j, (j < i)%nat ->
       exists e, outcome_at func j (op_state w) = inr e /\
                 isinstance e classes = true) /\
    op_state (snd (executor how (Some cfg) classes on_retry func w)) =
    state_after func (Datatypes.S i) (op_state w) /\
    match fst (executor how (Some cfg) classes on_retry func w) with
    | inl (Some v) => outcome_at func i (op_state w) = inl v
    | inl None => False
    | inr e =>
        outcome_at func i (op_state w) = inr e /\
        (isinstance e classes = false \/ Z.of_nat i = max_retries cfg)
    end.
Proof.
  intros Hn [name Hname] Hq Hcalm. rewrite executor_wrapper.
  destruct (@wrapper_settles V S C how cfg classes on_retry func w name
              Hn Hname Hq Hcalm)
    as (i & evs & tail & w' & Hi & Hfail & Hend & Hrun & _ & _ & _ & Hop & _).
  exists i. rewrite Hrun. cbn [fst snd].
  split; [assumption|]. split; [assumption|]. split; [assumption|].
  destruct (outcome_at func i (op_state w)) as [v|e]; [reflexivity|].
  split; [reflexivity|].
  destruct Hend as [Hend|Hend]; [now right|left; now apply Hend].
Qed.

Lemma executor_result_is_settled_by_one_invocation_witness :
  exists i,
    (Z.of_nat i <= 3)%Z /\
    (forall j, (j < i)%nat ->
       exists e, outcome_at (flaky 2 connection_error) j 0%nat = inr e /\
                 isinstance e [OSError] = true) /\
    op_state (snd (sync_retry (Some scenario_A) [OSError] None
                     (flaky 2 connection_error)
                     (start_with_sink (constant_rng (1 # 2))))) =
    state_after (flaky 2 connection_error) (Datatypes.S i) 0%nat /\
    match fst (sync_retry (Some scenario_A) [OSError] None
                 (flaky 2 connection_error)
                 (start_with_sink (constant_rng (1 # 2)))) with
    | inl (Some v) => outcome_at (flaky 2 connection_error) i 0%nat = inl v
    | inl None => False
    | inr e =>
        outcome_at (flaky 2 connection_error) i 0%nat = inr e /\
        (isinstance e [OSError] = false \/ Z.of_nat i = 3%Z)
    end.
Proof.
  apply (@executor_result_is_settled_by_one_invocation nat nat nat Blocking
           scenario_A [OSError] None (flaky 2 connection_error)
           (start_with_sink (constant_rng (1 # 2)))).
  - simpl. lia.
  - exists "flaky"%string. reflexivity.
  - apply sink_takes_connection_errors.
  - apply scenario_A_delays_are_slept. simpl. lia.
Defined.

(** X7. Under a valid policy and a generator with draws in [0, 1),
    whatever the operation does: every wait of either executor is
    positive and at most [max_delay] (times the upper end of
    [jitter_range] with jitter), and the whole time waited is at most
    [max_retries] times that. *)
Theorem executor_waits_are_bounded
  (V S C : Type) (how : wait) (cfg : RetryConfig) (classes : list kind)
  (on_retry : option (retry_callback C)) (func : operation V S)
  (w : world S C) :
  valid_policy cfg ->
  unit_draws (gen (sys w)) ->
  exists evs,
    trace (sys (snd (executor how (Some cfg) classes on_retry func w))) =
    trace (sys w) ++ evs /\
    Forall (fun d => 0 < d /\ d <= wait_ceiling cfg) (waits evs) /\
    total (waits evs) <= inject_Z (max_retries cfg) * wait_ceiling cfg.
Proof.
  intros Hc Hg. pose proof Hc as (Hn & _).
  rewrite executor_wrapper. unfold wrapper. rewrite range_seq.
  destruct (@retry_loop_shape V S C how cfg classes on_retry func
              (Z.to_nat (max_retries cfg + 1)) O None w
              ltac:(lia) ltac:(lia))
    as (evs & m & Ht & _ & Hm & _ & Hw & _ & _ & _ & _ & Hb).
  exists evs. split; [assumption|]. specialize (Hb Hc Hg).
  split; [assumption|].
  destruct (total_le Hb) as [_ Hsum].
  eapply Qle_trans; [exact Hsum|].
  apply Qmult_le_compat_r; [|now apply wait_ceiling_nonneg].
  rewrite <- Zle_Qle. lia.
Qed.

Lemma executor_waits_are_bounded_witness :
  exists evs,
    trace (sys (snd (sync_retry (Some default_config) [Exception] None
                       (flaky 9 connection_error)
                       (start (constant_rng (3 # 4)))))) = [] ++ evs /\
    Forall (fun d => 0 < d /\ d <= wait_ceiling default_config) (waits evs) /\
    total (waits evs) <= inject_Z 3 * wait_ceiling default_config.
Proof.
  apply (@executor_waits_are_bounded nat nat nat Blocking default_config
           [Exception] None (flaky 9 connection_error)
           (start (constant_rng (3 # 4)))).
  - unfold valid_policy, Qlt, Qle. simpl. lia.
  - intros i. unfold Qlt, Qle. simpl. lia.
Defined.

(** X8. Whatever the operation, the callback, the policy and the logger
    do, the warnings of either executor and its waits alternate: each
    wait comes after the warning that announces it, before any other
    warning or wait, and has the announced length; and each warning is
    followed by its wait, but for the last one when the wait refuses the
    announced length ([time.sleep] on a negative length or one beyond its
    clock). *)
Theorem executor_waits_what_it_announces
  (V S C : Type) (how : wait) (cfg : RetryConfig) (classes : list kind)
  (on_retry : option (retry_callback C)) (func : operation V S)
  (w : world S C) :
  exists evs,
    trace (sys (snd (executor how (Some cfg) classes on_retry func w))) =
    trace (sys w) ++ evs /\
    announced how (notices evs).
Proof.
  rewrite executor_wrapper.
  destruct (Z.lt_ge_cases (max_retries cfg) 0) as [Hneg|Hpos].
  - rewrite wrapper_without_attempts by assumption.
    exists []. cbn. rewrite app_nil_r. split; [reflexivity|constructor].
  - unfold wrapper. rewrite range_seq.
    destruct (@retry_loop_shape V S C how cfg classes on_retry func
                (Z.to_nat (max_retries cfg + 1)) O None w
                ltac:(lia) ltac:(lia))
      as (evs & m & Ht & _ & _ & _ & _ & Hann & _).
    exists evs. auto.
Qed.

(** X9. Whatever the operation does, either executor leaves the stream
    of draws as it was; without jitter it draws nothing; with jitter it
    draws once before each wait, and at most once more: the draw for a
    delay that is computed on the attempt where the executor then
    raises, because the operation has no [__name__] or the wait refuses
    the delay. *)
Theorem executor_draws_once_per_wait
  (V S C : Type) (how : wait) (cfg : RetryConfig) (classes : list kind)
  (on_retry : option (retry_callback C)) (func : operation V S)
  (w : world S C) :
  exists evs,
    trace (sys (snd (executor how (Some cfg) classes on_retry func w))) =
    trace (sys w) ++ evs /\
    draws (gen (sys (snd (executor how (Some cfg) classes on_retry func w)))) =
    draws (gen (sys w)) /\
    (cursor (gen (sys w))
     + (if jitter cfg then length (waits evs) else 0)
     <= cursor (gen (sys (snd (executor how (Some cfg) classes on_retry
                                 func w))))
     <= cursor (gen (sys w))
        + (if jitter cfg then Datatypes.S (length (waits evs)) else 0))%nat.
Proof.
  rewrite executor_wrapper.
  destruct (Z.lt_ge_cases (max_retries cfg) 0) as [Hneg|Hpos].
  - rewrite wrapper_without_attempts by assumption.
    exists []. cbn. rewrite app_nil_r. split; [reflexivity|].
    split; [reflexivity|]. destruct (jitter cfg); lia.
  - unfold wrapper. rewrite range_seq.
    destruct (@retry_loop_shape V S C how cfg classes on_retry func
                (Z.to_nat (max_retries cfg + 1)) O None w
                ltac:(lia) ltac:(lia))
      as (evs & m & Ht & _ & _ & _ & _ & _ & Hd & Hc & _).
    exists evs. auto.
Qed.

(* ================================================================= *)
(** ** More on the retry scope *)

(** X10. A scope never suppresses more failures than its policy has
    retries left, over any sequence of failures it is given and however
    often it is entered again: [attempt] counts the suppressed failures,
    never goes back and never passes [max_retries] (unless it started
    above); the scope waits once per suppressed failure; its policy and
    classes never change. *)
Theorem scope_budget_is_never_exceeded
  (ctx : RetryContext.t) (failures : list exn) (en : env) :
  let '(results, ctx', en') := exit_each ctx failures en in
  length results = length failures /\
  RetryContext.attempt ctx' =
  (RetryContext.attempt ctx + Z.of_nat (count_true results))%Z /\
  (Z.of_nat (count_true results) <=
   Z.max 0 (max_retries (RetryContext.config ctx) - RetryContext.attempt ctx))%Z /\
  length (waits (trace en')) =
  (length (waits (trace en)) + count_true results)%nat /\
  RetryContext.config ctx' = RetryContext.config ctx /\
  RetryContext.exceptions ctx' = RetryContext.exceptions ctx.
Proof.
  revert ctx en. induction failures as [|e rest IH]; intros ctx en.
  - unfold count_true. simpl. repeat split; try reflexivity; lia.
  - cbn [exit_each]. pose proof (exit_step ctx e en) as Hstep.
    destruct (RetryContext.__exit__ ctx (Some e) en) as [[b ctx1] en1].
    destruct Hstep as (Hc1 & He1 & Ha1 & Hlt & Hw1).
    specialize (IH ctx1 en1).
    destruct (exit_each ctx1 rest en1) as [[bs ctx2] en2].
    destruct IH as (Hlen & Ha2 & Hle & Hw2 & Hc2 & He2).
    rewrite Hc1 in *. unfold count_true in *. cbn [length filter].
    destruct b as [[|]|err]; cbn [length] in *.
    + specialize (Hlt eq_refl). repeat split; try congruence; lia.
    + repeat split; try congruence; lia.
    + repeat split; try congruence; lia.
Qed.

(** X11. For [max_retries >= 0], an operation that has a [__name__] and
    a logger that takes the records, whatever the operation does: the
    loop of the usage example around a new scope always ends, and ends as
    [sync_retry] without a callback does under the same policy and
    classes: it returns the same value or lets the same failure out,
    after the same invocations and the same waits in the same order,
    with the operation and the generator left in the same state.  Only
    the log records differ. *)
Theorem usage_loop_behaves_as_sync_retry
  (V S : Type) (cfg : RetryConfig) (classes : list kind)
  (func : operation V S) (w : world S unit) :
  (0 <= max_retries cfg)%Z ->
  named func ->
  quiet_logger (sys w) ->
  exists ending ctx' w',
    retry_in_scope func (Some cfg) classes w = Some (ending, ctx', w') /\
    ((exists v,
        fst (sync_retry (Some cfg) classes None func w) = inl (Some v) /\
        ending = Returned v) \/
     (exists e,
        fst (sync_retry (Some cfg) classes None func w) = inr e /\
        ending = Propagated e)) /\
    op_state (snd (sync_retry (Some cfg) classes None func w)) = op_state w' /\
    gen (sys (snd (sync_retry (Some cfg) classes None func w))) = gen (sys w') /\
    without_logs (trace (sys (snd (sync_retry (Some cfg) classes None func w)))) =
    without_logs (trace (sys w')).
Proof.
  intros Hn Hnamed Hq. unfold retry_in_scope, sync_retry, wrapper.
  rewrite range_seq.
  apply scope_loop_simulates; try reflexivity; try assumption;
    unfold loop_fuel; simpl; lia.
Qed.

Lemma usage_loop_behaves_as_sync_retry_witness :
  exists ending ctx' w',
    process_with_retry (flaky 2 connection_error)
      (mkWorld 0%nat tt (empty_env (constant_rng (3 # 4))))
    = Some (ending, ctx', w') /\
    ((exists v,
        fst (sync_retry (Some default_config) [OSError] None
               (flaky 2 connection_error)
               (mkWorld 0%nat tt (empty_env (constant_rng (3 # 4)))))
        = inl (Some v) /\
        ending = Returned v) \/
     (exists e,
        fst (sync_retry (Some default_config) [OSError] None
               (flaky 2 connection_error)
               (mkWorld 0%nat tt (empty_env (constant_rng (3 # 4)))))
        = inr e /\
        ending = Propagated e)) /\
    op_state (snd (sync_retry (Some default_config) [OSError] None
                     (flaky 2 connection_error)
                     (mkWorld 0%nat tt (empty_env (constant_rng (3 # 4))))))
    = op_state w' /\
    gen (sys (snd (sync_retry (Some default_config) [OSError] None
                     (flaky 2 connection_error)
                     (mkWorld 0%nat tt (empty_env (constant_rng (3 # 4)))))))
    = gen (sys w') /\
    without_logs
      (trace (sys (snd (sync_retry (Some default_config) [OSError] None
                          (flaky 2 connection_error)
                          (mkWorld 0%nat tt (empty_env (constant_rng (3 # 4))))))))
    = without_logs (trace (sys w')).
Proof.
  apply (@usage_loop_behaves_as_sync_retry nat nat default_config [OSError]
           (flaky 2 connection_error)
           (mkWorld 0%nat tt (empty_env (constant_rng (3 # 4))))).
  - simpl. lia.
  - exists "flaky"%string. reflexivity.
  - intros m. reflexivity.
Defined.

(** X12. The loop of the usage example around a new scope reaches the
    [raise retry_ctx.last_exception] after the loop exactly when
    [max_retries] is negative; the operation was not invoked then and
    there is no last exception, so the statement raises a [TypeError]
    and not a failure of the operation. *)
Theorem usage_loop_falls_through_only_without_attempts
  (V S : Type) (cfg : RetryConfig) (classes : list kind)
  (func : operation V S) (w : world S unit) :
  exists ending ctx' w',
    retry_in_scope func (Some cfg) classes w = Some (ending, ctx', w') /\
    ((exists last, ending = Fell_through last) <-> (max_retries cfg < 0)%Z) /\
    (forall last, ending = Fell_through last -> last = None /\ w' = w).
Proof.
  destruct (Z.lt_ge_cases (max_retries cfg) 0) as [Hn|Hn].
  - unfold retry_in_scope, loop_fuel. cbn.
    replace (0 <=? max_retries cfg)%Z with false
      by (symmetry; apply Z.leb_gt; assumption).
    do 3 eexists. split; [reflexivity|]. split.
    + split; [intros _; assumption|eauto].
    + intros last H. inversion H. auto.
  - destruct (@scope_loop_ends V S func (Z.to_nat (max_retries cfg))
                (loop_fuel (RetryContext.__init__ (Some cfg) classes))
                (RetryContext.__init__ (Some cfg) classes) w)
      as (ending & ctx' & w' & Hloop & Hnot);
      try (unfold loop_fuel; cbn; lia).
    exists ending, ctx', w'. split; [exact Hloop|]. split.
    + split; [intros [last H]; now apply Hnot in H|lia].
    + intros last H. now apply Hnot in H.
Qed.

(** X16. What [__exit__] does with a failure of the block, case by
    case.  It suppresses the failure only when the class is retryable and
    [attempt < max_retries], and then it has logged a warning, waited
    [calculate_delay(attempt)] and added one to [attempt]; it does
    suppress it then when the delay is computed and [time.sleep] takes
    it.  For a retryable class and [attempt >= max_retries] it returns
    [False] when the logger takes the record.  Whenever it does not
    suppress the failure, it has not waited and [attempt] is as it
    was. *)
Theorem scope_suppresses_only_with_attempts_left
  (ctx : RetryContext.t) (e : exn) (en : env) :
  let '(result, ctx', en') := RetryContext.__exit__ ctx (Some e) en in
  (result = inl true ->
   isinstance e (RetryContext.exceptions ctx) = true /\
   (RetryContext.attempt ctx < max_retries (RetryContext.config ctx))%Z /\
   exists d g m,
     calculate_delay (RetryContext.config ctx) (RetryContext.attempt ctx)
       (gen en) = (inl d, g) /\
     trace en' = trace en ++ [Logged WARNING m; Slept Blocking d] /\
     gen en' = g /\
     RetryContext.attempt ctx' = (RetryContext.attempt ctx + 1)%Z) /\
  (isinstance e (RetryContext.exceptions ctx) = true ->
   (RetryContext.attempt ctx < max_retries (RetryContext.config ctx))%Z ->
   forall d g,
     calculate_delay (RetryContext.config ctx) (RetryContext.attempt ctx)
       (gen en) = (inl d, g) ->
     time_sleep_error d = None ->
     result = inl true) /\
  (isinstance e (RetryContext.exceptions ctx) = true ->
   (RetryContext.attempt ctx >= max_retries (RetryContext.config ctx))%Z ->
   logger en
     (Context_failed_after_retries (max_retries (RetryContext.config ctx)) e)
   = None ->
   result = inl false) /\
  (result <> inl true ->
   waits (trace en') = waits (trace en) /\
   RetryContext.attempt ctx' = RetryContext.attempt ctx).
Proof.
  unfold RetryContext.__exit__, isinstance.
  destruct (issubclass_any (exn_kind e) (RetryContext.exceptions ctx));
    cbn [negb].
  - cbn [RetryContext.set_last_exception RetryContext.attempt
         RetryContext.config].
    destruct (Z.geb_spec (RetryContext.attempt ctx)
                (max_retries (RetryContext.config ctx))) as [Hge|Hlt].
    + destruct (logger en _) eqn:Hl.
      * split; [discriminate|]. split; [intros; lia|].
        split; [intros _ _ H; discriminate H|]. intros _. split; reflexivity.
      * split; [discriminate|]. split; [intros; lia|].
        split; [reflexivity|]. intros _. cbn [emit trace].
        rewrite waits_app. cbn. rewrite app_nil_r. split; reflexivity.
    + destruct (calculate_delay (RetryContext.config ctx)
                  (RetryContext.attempt ctx) (gen en)) as [[delay|err] g].
      * destruct (time_sleep_error delay) eqn:Hs.
        -- split; [discriminate|].
           split; [intros _ _ d g' H; inversion H; congruence|].
           split; [intros; lia|]. intros _. cbn [emit set_gen trace].
           rewrite waits_app. cbn. rewrite app_nil_r. split; reflexivity.
        -- split.
           { intros _. split; [reflexivity|]. split; [assumption|].
             exists delay, g. eexists. split; [reflexivity|].
             cbn [emit set_gen trace gen RetryContext.set_attempt
                  RetryContext.attempt].
             rewrite <- app_assoc. repeat split. }
           split; [reflexivity|]. split; [intros; lia|].
           intros H. now contradiction H.
      * split; [discriminate|].
        split; [intros _ _ d g' H; discriminate H|].
        split; [intros; lia|]. intros _. split; reflexivity.
  - split; [discriminate|]. split; [discriminate|]. split; [discriminate|].
    intros _. split; reflexivity.
Qed.

(* ================================================================= *)
(** ** More on the classes *)

(** X13. [issubclass] orders the classes: every class is a subclass of
    itself, a subclass of a subclass is a subclass, and two classes that
    are subclasses of each other are the same class.  So a failure that
    is retryable under some classes is retryable under any classes that
    cover them: replacing an entry by one of its bases, or adding
    entries, never stops a retry. *)
Theorem retryable_classes_can_only_widen :
  (forall c, issubclass c c = true) /\
  (forall a b c,
     issubclass a b = true -> issubclass b c = true -> issubclass a c = true) /\
  (forall a b, issubclass a b = true -> issubclass b a = true -> a = b) /\
  (forall (e : exn) (classes classes' : list kind),
     isinstance e classes = true ->
     (forall c, In c classes -> issubclass_any c classes' = true) ->
     isinstance e classes' = true).
Proof.
  split; [exact issubclass_refl|].
  split; [exact issubclass_trans|].
  split; [exact issubclass_antisym|].
  intros e classes classes' He Hcover.
  unfold isinstance, issubclass_any in *.
  apply existsb_exists in He. destruct He as (c & Hin & Hc).
  specialize (Hcover c Hin). apply existsb_exists in Hcover.
  destruct Hcover as (d & Hin' & Hd).
  apply existsb_exists. exists d. split; [assumption|].
  eapply issubclass_trans; eassumption.
Qed.

(** X14. The classes below [ContestTradeException] are exactly the
    classes the module exports in [__all__]: retrying on
    [ContestTradeException] retries every failure of the module and no
    builtin failure. *)
Theorem root_class_covers_exactly_the_exports (e : exn) :
  isinstance e [ContestTradeException] = true <-> In (exn_kind e) __all__.
Proof.
  destruct e as [k i t]. unfold isinstance. cbn [exn_kind].
  destruct k; split; intros H;
    try reflexivity;
    try (vm_compute in H; discriminate H);
    try (cbn; repeat (first [left; reflexivity | right]));
    cbn in H; repeat (destruct H as [H|H]; [discriminate H|]); contradiction.
Qed.

(** X15. A failure is retryable exactly when its class is an entry of
    the retryable classes or a descendant of one, as the [class]
    statements of [exceptions.py] define descendants; so a
    [DataFetchError] is retryable under [DataSourceError] and under
    [ContestTradeException].  An executor that has an attempt left, an
    operation with a [__name__] and a delay that is computed and slept
    goes on to the next attempt exactly for such a failure.  And
    [__exit__] returns [False] and leaves the scope and the environment
    untouched exactly for a failure that is not such a one. *)
Theorem retryable_means_entry_or_descendant :
  (forall (e : exn) (classes : list kind),
     isinstance e classes = true <->
     exists c, In c classes /\
               (exn_kind e = c \/ descendant (exn_kind e) c)) /\
  (forall i t,
     isinstance (mkExn DataFetchError i t) [DataSourceError] = true /\
     isinstance (mkExn DataFetchError i t) [ContestTradeException] = true) /\
  (forall (V S C : Type) (how : wait) (cfg : RetryConfig)
          (classes : list kind) (on_retry : option (retry_callback C))
          (func : operation V S) (w : world S C) (a : Z) (e : exn) (s' : S)
          (d : Q),
     call func (op_state w) = (inr e, s') ->
     a <> max_retries cfg ->
     named func ->
     fst (calculate_delay cfg a (gen (sys w))) = inl d ->
     sleep_error how d = None ->
     (fst (attempt_once how cfg classes on_retry func a w) = inl (Next e) <->
      exists c, In c classes /\
                (exn_kind e = c \/ descendant (exn_kind e) c))) /\
  (forall (ctx : RetryContext.t) (e : exn) (en : env),
     RetryContext.__exit__ ctx (Some e) en = (inl false, ctx, en) <->
     ~ (exists c, In c (RetryContext.exceptions ctx) /\
                  (exn_kind e = c \/ descendant (exn_kind e) c))).
Proof.
  split; [exact isinstance_iff|].
  split; [intros i t; split; reflexivity|].
  split.
  - intros V S C how cfg classes on_retry func w a e s' d Hf Ha [name Hn]
      Hd Hs.
    rewrite <- isinstance_iff.
    destruct (calculate_delay cfg a (gen (sys w))) as [r g] eqn:Hcd.
    cbn [fst] in Hd. subst r.
    destruct (isinstance e classes) eqn:Hi.
    + destruct (@attempt_once_retried_trace V S C how cfg classes on_retry
                  func a e s' d g name w Hf Hi Ha Hcd Hn Hs)
        as (w' & evs & -> & _).
      split; reflexivity.
    + destruct (@attempt_once_digest V S C how cfg classes on_retry func a w)
        as (evs & _ & _ & _ & _ & _ & Hcase).
      split; [|discriminate].
      intros H. rewrite H in Hcase. destruct Hcase as (He & Hi' & _).
      rewrite Hf in He. cbn in He. inversion He. congruence.
  - intros ctx e en. rewrite <- isinstance_iff.
    unfold RetryContext.__exit__, isinstance.
    destruct (issubclass_any (exn_kind e) (RetryContext.exceptions ctx));
      cbn [negb].
    + split; [|intros H; now contradiction H].
      cbn [RetryContext.set_last_exception RetryContext.attempt
           RetryContext.config].
      intros H. exfalso.
      destruct (RetryContext.attempt ctx
                >=? max_retries (RetryContext.config ctx))%Z.
      * destruct (logger en _); [discriminate H|].
        injection H as _ Henv. apply (f_equal trace) in Henv.
        apply (f_equal (@length event)) in Henv. cbn [emit trace] in Henv.
        rewrite length_app in Henv. cbn in Henv. lia.
      * destruct (calculate_delay (RetryContext.config ctx)
                    (RetryContext.attempt ctx) (gen en)) as [[delay|err] g];
          [|discriminate H].
        destruct (time_sleep_error delay); discriminate H.
    + split; [intros _; discriminate|reflexivity].
Qed.
